(** * Sizing of replacement servers: the scenario engine and its inputs

    A shallow embedding of [logic_sizing.py] (and of the request handler of
    [api.py] where it differs), with the properties of the sizing
    specification stated and proved over it.

    Number model.  Python integers are [Z].  Python floats are exact rationals
    ([Q], compared with [==]); the three non-finite floats that pandas can put
    into the performance table are kept apart in [float64].  Rounding error of
    binary floating point is therefore outside this development. *)

From Stdlib Require Import ZArith QArith Qround Qpower.
From Stdlib Require Import List String Ascii Bool Lia Lqa.
From Stdlib Require Import Permutation Sorted.
Import ListNotations.

Set Implicit Arguments.

Local Open Scope Z_scope.

(** ** Python values and exceptions *)

(** A float as pandas stores it in a column: finite, one of the two
    infinities, or not-a-number. *)
Inductive float64 : Type :=
| Fin (q : Q)
| PInf
| NInf
| NaN.

(** The exceptions that the modelled code can raise. *)
Inductive excecao : Type :=
| ZeroDivisionError
| ValueError
| KeyError
| TypeError
| ValidationError
| HTTPException (status_code : Z).

(** Outcome of a Python computation: a value, or a raised exception. *)
Inductive resultado (A : Type) : Type :=
| Ok (a : A)
| Raise (e : excecao).

Arguments Ok {A} a.
Arguments Raise {A} e.

Definition bind {A B : Type} (r : resultado A) (k : A -> resultado B) : resultado B :=
  match r with
  | Ok a => k a
  | Raise e => Raise e
  end.

Notation "x <- r ;; k" := (bind r (fun x => k))
  (at level 61, r at next level, right associativity).

(** [x < y] on floats. *)
Definition Qlt_bool (x y : Q) : bool := negb (Qle_bool y x).

(** ** The performance table *)

(** One row of the data frame built by [data_preparation]; [Modelo_Unico] is
    the index label. *)
Record Linha : Type := mkLinha {
  Modelo_Unico : string;
  Modelo_Base : string;
  Processador : string;
  Cores_Maximos : Z;
  rPerf_Total : float64;
  rPerf_por_Core : float64
}.

(** ** Scenarios *)

(** The dictionary appended to [cenarios_validos]. *)
Record Cenario : Type := mkCenario {
  modelo_unico : string;
  modelo_base : string;
  servidores : Z;
  cores_por_servidor : Z;
  rperf_novo : Q;
  utilizacao_cores : Q;
  excedente_rperf : Q
}.

(** The even-core policy: an odd count is raised to the next even one.
    Python's [%] with a positive divisor is [Z.modulo]. *)
Definition cores_pares (arredondado : Z) : Z :=
  if negb (arredondado mod 2 =? 0) then arredondado + 1 else arredondado.

(** The quantities computed at the head of the loop body of
    [rank_cenarios], for a finite performance per core. *)
Definition cores_necessarios (rperf_final_requerido rperf_por_core_alvo : Q) : Q :=
  (rperf_final_requerido / rperf_por_core_alvo)%Q.

Definition num_servidores_teorico (rperf_final_requerido rperf_por_core_alvo : Q)
    (cores_maximos_alvo : Z) : Q :=
  (cores_necessarios rperf_final_requerido rperf_por_core_alvo
   / inject_Z cores_maximos_alvo)%Q.

Definition num_servidores_real (rperf_final_requerido rperf_por_core_alvo : Q)
    (cores_maximos_alvo : Z) : Z :=
  Qceiling (num_servidores_teorico rperf_final_requerido rperf_por_core_alvo
              cores_maximos_alvo).

Definition cores_por_servidor_media (rperf_final_requerido rperf_por_core_alvo : Q)
    (cores_maximos_alvo : Z) : Q :=
  (cores_necessarios rperf_final_requerido rperf_por_core_alvo
   / inject_Z (num_servidores_real rperf_final_requerido rperf_por_core_alvo
                 cores_maximos_alvo))%Q.

Definition cores_ativos_arredondado (rperf_final_requerido rperf_por_core_alvo : Q)
    (cores_maximos_alvo : Z) : Z :=
  Qceiling (cores_por_servidor_media rperf_final_requerido rperf_por_core_alvo
              cores_maximos_alvo).

Definition cores_ativos_por_servidor (rperf_final_requerido rperf_por_core_alvo : Q)
    (cores_maximos_alvo : Z) : Z :=
  cores_pares (cores_ativos_arredondado rperf_final_requerido rperf_por_core_alvo
                 cores_maximos_alvo).

(** The body of the [for modelo_alvo, dados_alvo in df_alvo.iterrows()] loop
    for a finite, non-zero performance per core and a non-zero core ceiling.
    [None] is [continue]. *)
Definition avalia_finito (rperf_final_requerido : Q) (dados_alvo : Linha)
    (rperf_por_core_alvo : Q) : option Cenario :=
  let cores_maximos_alvo := Cores_Maximos dados_alvo in
  let n := num_servidores_real rperf_final_requerido rperf_por_core_alvo
             cores_maximos_alvo in
  if n =? 0 then None
  else
    let cores := cores_ativos_por_servidor rperf_final_requerido rperf_por_core_alvo
                   cores_maximos_alvo in
    let utilizacao := (inject_Z cores / inject_Z cores_maximos_alvo)%Q in
    if Qlt_bool utilizacao (60 # 100) || (cores_maximos_alvo <? cores)
    then None
    else
      let rperf_novo_total := (inject_Z (n * cores) * rperf_por_core_alvo)%Q in
      Some {| modelo_unico := Modelo_Unico dados_alvo;
              modelo_base := Modelo_Base dados_alvo;
              servidores := n;
              cores_por_servidor := cores;
              rperf_novo := rperf_novo_total;
              utilizacao_cores := utilizacao;
              excedente_rperf := (rperf_novo_total - rperf_final_requerido)%Q |}.

(** One iteration of the loop, for any row.  The divisions are Python's: a
    zero divisor raises [ZeroDivisionError], whatever the dividend.  (With a
    requirement that is a numpy float the division itself gives an infinity
    or not-a-number, and it is [math.ceil] that raises on the same rows; only
    the class of the exception differs.)  With an infinite performance per
    core [cores_necessarios] is a zero, so the row is skipped by the
    [num_servidores_real == 0] test; with a not-a-number one, [math.ceil]
    raises [ValueError]. *)
Definition avalia_alvo (rperf_final_requerido : Q) (dados_alvo : Linha)
    : resultado (option Cenario) :=
  match rPerf_por_Core dados_alvo with
  | Fin p =>
      if Qeq_bool p 0 then Raise ZeroDivisionError
      else if Cores_Maximos dados_alvo =? 0 then Raise ZeroDivisionError
      else Ok (avalia_finito rperf_final_requerido dados_alvo p)
  | PInf | NInf =>
      if Cores_Maximos dados_alvo =? 0 then Raise ZeroDivisionError
      else Ok None
  | NaN =>
      if Cores_Maximos dados_alvo =? 0 then Raise ZeroDivisionError
      else Raise ValueError
  end.

(** The whole loop: [cenarios_validos], in the order of the rows. *)
Fixpoint gera_cenarios (df_alvo : list Linha) (rperf_final_requerido : Q)
    : resultado (list Cenario) :=
  match df_alvo with
  | [] => Ok []
  | dados_alvo :: resto =>
      o <- avalia_alvo rperf_final_requerido dados_alvo ;;
      l <- gera_cenarios resto rperf_final_requerido ;;
      Ok (match o with Some c => c :: l | None => l end)
  end.

(** ** Champion per family *)

(** [melhores_por_modelo] is a Python dict: keys in order of first insertion,
    an assignment to a present key replaces the value in place. *)
Definition dict : Type := list (string * Cenario).

Fixpoint dict_get (k : string) (d : dict) : option Cenario :=
  match d with
  | [] => None
  | (k', v) :: d' => if String.eqb k k' then Some v else dict_get k d'
  end.

Fixpoint dict_set (k : string) (v : Cenario) (d : dict) : dict :=
  match d with
  | [] => [(k, v)]
  | (k', v') :: d' =>
      if String.eqb k k' then (k, v) :: d' else (k', v') :: dict_set k v d'
  end.

Definition dict_values (d : dict) : list Cenario := map snd d.

(** The replacement test of the selection loop, for a family already
    present: strictly fewer servers, or as many and strictly less surplus. *)
Definition substitui (cenario campeao : Cenario) : bool :=
  (servidores cenario <? servidores campeao)
  || ((servidores cenario =? servidores campeao)
      && Qlt_bool (excedente_rperf cenario) (excedente_rperf campeao)).

Definition seleciona_passo (melhores_por_modelo : dict) (cenario : Cenario) : dict :=
  match dict_get (modelo_base cenario) melhores_por_modelo with
  | None => dict_set (modelo_base cenario) cenario melhores_por_modelo
  | Some campeao =>
      if substitui cenario campeao
      then dict_set (modelo_base cenario) cenario melhores_por_modelo
      else melhores_por_modelo
  end.

Definition seleciona (cenarios_validos : list Cenario) : dict :=
  fold_left seleciona_passo cenarios_validos [].

(** ** Final ranking *)

(** Comparison of the sort keys [(servidores, excedente_rperf)], as Python
    compares tuples. *)
Definition chave_leb (a b : Cenario) : bool :=
  (servidores a <? servidores b)
  || ((servidores a =? servidores b)
      && Qle_bool (excedente_rperf a) (excedente_rperf b)).

(** [sorted] is stable: an element goes before the first one that is not
    smaller than it. *)
Fixpoint insere (x : Cenario) (l : list Cenario) : list Cenario :=
  match l with
  | [] => [x]
  | y :: l' => if chave_leb x y then x :: y :: l' else y :: insere x l'
  end.

Fixpoint sorted (l : list Cenario) : list Cenario :=
  match l with
  | [] => []
  | x :: l' => insere x (sorted l')
  end.

(** The end of [rank_cenarios], which closes [calcular_sizing] too: the
    champions, sorted, cut to the first ten. *)
Definition top_cenarios (cenarios_validos : list Cenario) : list Cenario :=
  let melhores_por_modelo := seleciona cenarios_validos in
  let lista_de_campeoes := dict_values melhores_por_modelo in
  let cenarios_finais_ordenados := sorted lista_de_campeoes in
  firstn 10 cenarios_finais_ordenados.

Definition rank_cenarios (df_alvo : list Linha) (rperf_final_requerido : Q)
    : resultado (list Cenario) :=
  cenarios_validos <- gera_cenarios df_alvo rperf_final_requerido ;;
  Ok (top_cenarios cenarios_validos).

(** ** Float arithmetic of the base requirement

    Exact on finite values, IEEE on the others. *)

Definition fadd (x y : float64) : float64 :=
  match x, y with
  | NaN, _ | _, NaN => NaN
  | Fin a, Fin b => Fin (a + b)
  | PInf, NInf | NInf, PInf => NaN
  | PInf, _ | _, PInf => PInf
  | NInf, _ | _, NInf => NInf
  end.

(** The product of an infinity of sign [pos] with the finite [a]. *)
Definition inf_vezes (pos : bool) (a : Q) : float64 :=
  if Qeq_bool a 0 then NaN
  else if Bool.eqb pos (Qlt_bool 0 a) then PInf else NInf.

Definition fmul (x y : float64) : float64 :=
  match x, y with
  | NaN, _ | _, NaN => NaN
  | Fin a, Fin b => Fin (a * b)
  | Fin a, PInf | PInf, Fin a => inf_vezes true a
  | Fin a, NInf | NInf, Fin a => inf_vezes false a
  | PInf, PInf | NInf, NInf => PInf
  | PInf, NInf | NInf, PInf => NInf
  end.

(** Equality of floats as values: [==] on the finite ones. *)
Definition feq (x y : float64) : Prop :=
  match x, y with
  | Fin a, Fin b => a == b
  | PInf, PInf | NInf, NInf | NaN, NaN => True
  | _, _ => False
  end.

(** Two outcomes agree: the same value up to [feq], or an exception on both
    sides. *)
Definition mesmo_resultado (x y : resultado float64) : Prop :=
  match x, y with
  | Ok a, Ok b => feq a b
  | Raise _, Raise _ => True
  | _, _ => False
  end.

(** ** The inventory and the base requirement *)

(** The value stored per model in [inventario_client]. *)
Record Dados : Type := mkDados {
  inv_cores : Z;
  inv_servidores : Z;
  inv_utilizacao : Q
}.

(** [inventario_client.items()], in insertion order. *)
Definition inventario : Type := list (string * Dados).

(** The update of [inventario_client] at the end of one round of
    [client_ambient]: a model already present only has its server count
    increased. *)
Fixpoint registra (inventario_client : inventario) (modelo_selecionado : string)
    (cores_por_servidor : Z) (cores_porc : Q) (num_servidores : Z) : inventario :=
  match inventario_client with
  | [] => [(modelo_selecionado,
            {| inv_cores := cores_por_servidor;
               inv_servidores := num_servidores;
               inv_utilizacao := cores_porc |})]
  | (m, d) :: resto =>
      if String.eqb modelo_selecionado m
      then (m, {| inv_cores := inv_cores d;
                  inv_servidores := inv_servidores d + num_servidores;
                  inv_utilizacao := inv_utilizacao d |}) :: resto
      else (m, d) :: registra resto modelo_selecionado cores_por_servidor
                       cores_porc num_servidores
  end.

(** [inventario_client[modelo]], when the model is present. *)
Fixpoint inv_get (modelo : string) (inventario_client : inventario) : option Dados :=
  match inventario_client with
  | [] => None
  | (m, d) :: resto => if String.eqb modelo m then Some d else inv_get modelo resto
  end.

(** The inventory that [client_ambient] builds from the entries that it
    accepts, in the order in which they are typed. *)
Definition client_ambient (entradas : list (string * Dados)) : inventario :=
  fold_left
    (fun inv e => registra inv (fst e) (inv_cores (snd e)) (inv_utilizacao (snd e))
                    (inv_servidores (snd e)))
    entradas [].

(** [df.loc[modelo, 'rPerf_por_Core']]: a label that is absent raises
    [KeyError]; a label carried by several rows selects a Series, which the
    formatted [print] of the loop rejects with [TypeError]. *)
Definition loc_rPerf_por_Core (df : list Linha) (modelo : string) : resultado float64 :=
  match filter (fun l => String.eqb (Modelo_Unico l) modelo) df with
  | [] => Raise KeyError
  | [l] => Ok (rPerf_por_Core l)
  | _ :: _ :: _ => Raise TypeError
  end.

Definition rperf_total_modelo (dados : Dados) (rperf_por_core : float64) : float64 :=
  fmul (fmul (Fin (inject_Z (inv_servidores dados * inv_cores dados))) rperf_por_core)
       (Fin (inv_utilizacao dados)).

(** The summation loop of [rperf_calc], from the running total [rperf_base]. *)
Fixpoint soma_rperf (df : list Linha) (itens : inventario) (rperf_base : float64)
    : resultado float64 :=
  match itens with
  | [] => Ok rperf_base
  | (modelo, dados) :: resto =>
      p <- loc_rPerf_por_Core df modelo ;;
      soma_rperf df resto (fadd rperf_base (rperf_total_modelo dados p))
  end.

Definition rperf_base (df : list Linha) (inventario_client : inventario)
    : resultado float64 :=
  soma_rperf df inventario_client (Fin 0).

(** ** The base requirement of the request handler *)

(** [ClientMachine] of [api.py]; [cores] and [quantidade] are declared
    [gt=0]. *)
Record ClientMachine : Type := mkClientMachine {
  cm_modelo : string;
  cm_cores : Z;
  cm_quantidade : Z
}.

Section BaseAPI.

(** [str.fullmatch(pattern, case=False)] on one cell: the regular-expression
    engine belongs to pandas and is a parameter here. *)
Variable fullmatch : string -> string -> bool.

(** [matches], then the performance per core of [matches.index[0]]: the
    frame of [api.py] keeps its row numbers as labels, so the label selects
    the first matching row; no match is the 404 of the handler. *)
Definition primeira_config (df : list Linha) (modelo_base : string) (cores : Z)
    : resultado float64 :=
  match filter (fun l => fullmatch modelo_base (Modelo_Base l)
                         && (Cores_Maximos l =? cores)) df with
  | [] => Raise (HTTPException 404)
  | l :: _ => Ok (rPerf_por_Core l)
  end.

(** The summation loop of [calcular_sizing]. *)
Fixpoint soma_api (df : list Linha) (maquinas : list ClientMachine)
    (rperf_base : float64) : resultado float64 :=
  match maquinas with
  | [] => Ok rperf_base
  | machine :: resto =>
      p <- primeira_config df (cm_modelo machine) (cm_cores machine) ;;
      soma_api df resto
        (fadd rperf_base
           (fmul (Fin (inject_Z (cm_quantidade machine * cm_cores machine))) p))
  end.

Definition rperf_base_api (df : list Linha) (inventario_cliente : list ClientMachine)
    : resultado float64 :=
  match df with
  | [] => Raise (HTTPException 500)
  | _ :: _ => soma_api df inventario_cliente (Fin 0)
  end.

End BaseAPI.

(** ** Growth projection *)

(** Python's [x ** n] for a float and an integer. *)
Definition py_pow (x : Q) (n : Z) : resultado Q :=
  if Qeq_bool x 0 && (n <? 0) then Raise ZeroDivisionError else Ok (x ^ n)%Q.

(** The tail of [rperf_calc].  [projecao] is the lower-cased answer to the
    first prompt; [taxa] and [anos] are the next two answers as [float] and
    [int] read them, [None] when they raise [ValueError]. *)
Definition projecao_crescimento (rperf_base : float64) (projecao : string)
    (taxa : option Q) (anos : option Z) : resultado float64 :=
  if String.eqb projecao "s" then
    match taxa with
    | None => Ok rperf_base
    | Some t =>
        let taxa_anual := (t / 100)%Q in
        match anos with
        | None => Ok rperf_base
        | Some a =>
            p <- py_pow (1 + taxa_anual) a ;;
            Ok (fmul rperf_base (Fin p))
        end
    end
  else Ok rperf_base.

(** [rperf_calc]: the summation loop, then the optional projection. *)
Definition rperf_calc (df : list Linha) (inventario_client : inventario)
    (projecao : string) (taxa : option Q) (anos : option Z) : resultado float64 :=
  base <- rperf_base df inventario_client ;;
  projecao_crescimento base projecao taxa anos.

(** [GrowthProjection] of [api.py]: both fields are declared [ge=0]. *)
Record GrowthProjection : Type := mkGrowth {
  taxa_anual_percent : Q;
  anos : Z
}.

Definition valida_GrowthProjection (taxa_anual_percent : Q) (anos : Z)
    : resultado GrowthProjection :=
  if Qle_bool 0 taxa_anual_percent && (0 <=? anos)
  then Ok {| taxa_anual_percent := taxa_anual_percent; anos := anos |}
  else Raise ValidationError.


(** ** Building the performance table *)

(** A row of the frame returned by [pd.read_csv].  [csv_Cores_Maximos] is the
    text of the cell as [astype(str)] renders it; [csv_rPerf_Total] is read
    from a numeric column. *)
Record LinhaCSV : Type := mkLinhaCSV {
  csv_Modelo_Unico : string;
  csv_Modelo_Base : string;
  csv_Processador : string;
  csv_Cores_Maximos : string;
  csv_rPerf_Total : float64
}.

(** The frame returned by [pd.read_csv]: the names of the columns that the
    file has, and its rows. *)
Record TabelaCSV : Type := mkTabelaCSV {
  colunas : list string;
  linhas : list LinhaCSV
}.

(** [str.replace('c', '')]: every occurrence of the letter is removed. *)
Fixpoint replace_c (s : string) : string :=
  match s with
  | EmptyString => EmptyString
  | String a s' =>
      if Ascii.eqb a "c"%char then replace_c s' else String a (replace_c s')
  end.

(** The division of a float column by an integer column, as numpy does it:
    no exception, a zero divisor gives an infinity or not-a-number. *)
Definition np_div (x : float64) (n : Z) : float64 :=
  match x with
  | Fin q =>
      if n =? 0 then
        (if Qeq_bool q 0 then NaN else if Qlt_bool 0 q then PInf else NInf)
      else Fin (q / inject_Z n)
  | PInf => if n <? 0 then NInf else PInf
  | NInf => if n <? 0 then PInf else NInf
  | NaN => NaN
  end.

(** [astype(int)] on a finite float: truncation towards zero. *)
Definition trunca (q : Q) : Z := Z.quot (Qnum q) (Zpos (Qden q)).

(** [df[nome]]: a column that the file does not have raises [KeyError]. *)
Definition coluna (t : TabelaCSV) (nome : string) : resultado unit :=
  if existsb (String.eqb nome) (colunas t) then Ok tt else Raise KeyError.

Definition isin_p10_p11 (processador : string) : bool :=
  String.eqb processador "p10" || String.eqb processador "p11".

Section Preparacao.

(** [pd.to_numeric(..., errors='coerce')] on one cell: not-a-number when
    the text is not a numeric literal.  The parser belongs to pandas and is
    a parameter here. *)
Variable to_numeric : string -> float64.

(** The cores cell of a row after [str.replace] and [pd.to_numeric]. *)
Definition cores_lidos (r : LinhaCSV) : float64 :=
  to_numeric (replace_c (csv_Cores_Maximos r)).

(** What the normalisation of [Cores_Maximos] does to one row: a cell that
    does not parse is dropped by [dropna] ([None]); [astype(int)] refuses
    an infinity. *)
Definition normaliza_linha (r : LinhaCSV) : resultado (option Linha) :=
  match cores_lidos r with
  | NaN => Ok None
  | PInf | NInf => Raise ValueError
  | Fin q =>
      let cores_maximos := trunca q in
      Ok (Some {| Modelo_Unico := csv_Modelo_Unico r;
                  Modelo_Base := csv_Modelo_Base r;
                  Processador := csv_Processador r;
                  Cores_Maximos := cores_maximos;
                  rPerf_Total := csv_rPerf_Total r;
                  rPerf_por_Core := np_div (csv_rPerf_Total r) cores_maximos |})
  end.

Fixpoint normaliza (rs : list LinhaCSV) : resultado (list Linha) :=
  match rs with
  | [] => Ok []
  | r :: rs' =>
      o <- normaliza_linha r ;;
      l <- normaliza rs' ;;
      Ok (match o with Some x => x :: l | None => l end)
  end.

(** The [try] block of [data_preparation], on the frame that was read. *)
Definition prepara (t : TabelaCSV) : resultado (list Linha * list Linha) :=
  _ <- coluna t "Cores_Maximos" ;;
  df <- normaliza (linhas t) ;;
  _ <- coluna t "Frequencia_GHz" ;;
  _ <- coluna t "rPerf_Total" ;;
  _ <- coluna t "Modelo_Unico" ;;
  _ <- coluna t "Processador" ;;
  Ok (df, filter (fun l => isin_p10_p11 (Processador l)) df).

(** [data_preparation].  [lido] is the outcome of [pd.read_csv]: [None]
    when it raises.  Every exception of the [try] block ends in
    [return None, None], which is [None] here. *)
Definition data_preparation (lido : option TabelaCSV)
    : option (list Linha * list Linha) :=
  match lido with
  | None => None
  | Some t =>
      match prepara t with
      | Ok par => Some par
      | Raise _ => None
      end
  end.

End Preparacao.

(** The literals of pandas' parser that the examples use: a decimal integer
    with an optional minus sign, and the infinities.  Any other text is
    not-a-number here. *)
Definition digito (a : ascii) : option Z :=
  let n := Z.of_nat (nat_of_ascii a) in
  if (48 <=? n) && (n <=? 57) then Some (n - 48) else None.

Fixpoint digitos (s : string) (acc : Z) : option Z :=
  match s with
  | EmptyString => Some acc
  | String a s' =>
      match digito a with
      | Some d => digitos s' (10 * acc + d)
      | None => None
      end
  end.

Definition to_numeric_literal (s : string) : float64 :=
  if String.eqb s "inf" then PInf
  else if String.eqb s "-inf" then NInf
  else
    match s with
    | EmptyString => NaN
    | String "-"%char (String a s') =>
        match digitos (String a s') 0 with
        | Some n => Fin (inject_Z (- n))
        | None => NaN
        end
    | _ =>
        match digitos s 0 with
        | Some n => Fin (inject_Z n)
        | None => NaN
        end
    end.

Definition colunas_completas : list string :=
  ["Modelo_Unico"; "Modelo_Base"; "Processador"; "Cores_Maximos";
   "Frequencia_GHz"; "rPerf_Total"]%string.

(** The two configurations of family X of the worked example. *)
Definition linhaA : Linha := mkLinha "A" "X" "p10" 20 (Fin 20) (Fin 1).
Definition linhaB : Linha := mkLinha "B" "X" "p10" 40 (Fin 40) (Fin 1).

(** ** Predicates and examples used in the statements *)

(** A row of the catalog as the data model has it: finite positive
    performance per core [p], positive core ceiling. *)
Definition bem_formada (l : Linha) (p : Q) : Prop :=
  rPerf_por_Core l = Fin p /\ (0 < p)%Q /\ 0 < Cores_Maximos l.

(** [a] is not after [b] in the order [(servidores, excedente_rperf)]. *)
Definition chave_le (a b : Cenario) : Prop :=
  servidores a < servidores b
  \/ (servidores a = servidores b /\ (excedente_rperf a <= excedente_rperf b)%Q).

(** The state of the selection loop after the scenarios [vistos]: one entry
    per family seen, filed under its own family, taken from [vistos], and not
    after any scenario of that family in the two-key order. *)
Record campeoes (vistos : list Cenario) (d : dict) : Prop := {
  campeoes_chaves : NoDup (map fst d);
  campeoes_origem : forall k v, In (k, v) d -> modelo_base v = k /\ In v vistos;
  campeoes_minimo : forall c, In c vistos ->
    exists v, dict_get (modelo_base c) d = Some v /\ chave_le v c
}.



(** The columns that [data_preparation] reads. *)
Definition colunas_usadas : list string :=
  ["Cores_Maximos"; "Frequencia_GHz"; "rPerf_Total"; "Modelo_Unico";
   "Processador"]%string.

Definition tem_colunas (t : TabelaCSV) : bool :=
  forallb (fun c => existsb (String.eqb c) (colunas t)) colunas_usadas.


Definition nao_numerico (x : float64) : bool :=
  match x with
  | NaN => true
  | Fin _ | PInf | NInf => false
  end.



(** A table with every column and four rows: a regular one, one without a
    numeric cores cell, one with zero cores, one with a zero rating. *)
Definition tabela_exemplo : TabelaCSV :=
  mkTabelaCSV colunas_completas
    [mkLinhaCSV "A" "X" "p10" "20c" (Fin 20);
     mkLinhaCSV "B" "X" "p9" "n/d" (Fin 40);
     mkLinhaCSV "Z" "Y" "p11" "0c" (Fin 20);
     mkLinhaCSV "W" "Y" "p10" "8c" (Fin 0)].

(** ** The interactive collection of the inventory *)

(** The prompt at which the loop of [client_ambient] is waiting, with what
    the current round has read so far; the last two are the ways the loop
    ends: the empty search line, and a search text that [str.contains]
    cannot compile. *)
Inductive pergunta : Type :=
| PerguntaBusca
| PerguntaEscolha (matches : list string)
| PerguntaCores (modelo_selecionado : string)
| PerguntaPico (modelo_selecionado : string) (cores_por_servidor : Z)
| PerguntaServidores (modelo_selecionado : string) (cores_por_servidor : Z)
    (cores_porc : Q)
| Terminado
| ErroPadrao.

(** What a call of [client_ambient] ends in: its return value ([None] when
    nothing was entered), the [EOFError] of [input] when the lines run out,
    or the error of the regular-expression compiler. *)
Inductive coleta : Type :=
| Retorna (inventario_client : option inventario)
| FimDaEntrada
| PadraoInvalido.

(** [if modelo_selecionado:] an empty label is skipped. *)
Definition apos_selecao (modelo_selecionado : string) : pergunta :=
  match modelo_selecionado with
  | EmptyString => PerguntaBusca
  | String _ _ => PerguntaCores modelo_selecionado
  end.

Definition vazia (s : string) : bool :=
  match s with
  | EmptyString => true
  | String _ _ => false
  end.

Section ColetaInterativa.

(** [str.contains(busca, case=False)]: the matcher of a search text, [None]
    when the text is not a regular expression.  [int]: the integer that a
    line denotes, [None] when [int] raises [ValueError].  Both belong to
    Python and are parameters here. *)
Variable str_contains : string -> option (string -> bool).
Variable py_int : string -> option Z.

(** One line typed by the user, at the prompt [fst estado]. *)
Definition client_ambient_passo (df : list Linha) (estado : pergunta * inventario)
    (linha : string) : pergunta * inventario :=
  let inventario_client := snd estado in
  match fst estado with
  | PerguntaBusca =>
      if vazia linha then (Terminado, inventario_client)
      else
        match str_contains linha with
        | None => (ErroPadrao, inventario_client)
        | Some contem =>
            match filter contem (map Modelo_Unico df) with
            | [] => (PerguntaBusca, inventario_client)
            | [m] => (apos_selecao m, inventario_client)
            | m :: m' :: ms => (PerguntaEscolha (m :: m' :: ms), inventario_client)
            end
        end
  | PerguntaEscolha matches =>
      match py_int linha with
      | None => (PerguntaBusca, inventario_client)
      | Some escolha =>
          if (1 <=? escolha) && (escolha <=? Z.of_nat (List.length matches))
          then (apos_selecao (nth (Z.to_nat (escolha - 1)) matches EmptyString),
                inventario_client)
          else (PerguntaBusca, inventario_client)
      end
  | PerguntaCores m =>
      match py_int linha with
      | None => (PerguntaBusca, inventario_client)
      | Some cores_por_servidor => (PerguntaPico m cores_por_servidor, inventario_client)
      end
  | PerguntaPico m cores_por_servidor =>
      if vazia linha then (PerguntaServidores m cores_por_servidor 1, inventario_client)
      else
        match py_int linha with
        | None => (PerguntaBusca, inventario_client)
        | Some cores_porc_str =>
            (PerguntaServidores m cores_por_servidor (inject_Z cores_porc_str / 100),
             inventario_client)
        end
  | PerguntaServidores m cores_por_servidor cores_porc =>
      match (if vazia linha then Some 1 else py_int linha) with
      | None => (PerguntaBusca, inventario_client)
      | Some num_servidores =>
          (PerguntaBusca,
           registra inventario_client m cores_por_servidor cores_porc num_servidores)
      end
  | Terminado => estado
  | ErroPadrao => estado
  end.

(** [client_ambient] on the lines that the user types, in order. *)
Definition client_ambient_io (df : list Linha) (linhas_digitadas : list string) : coleta :=
  match fold_left (client_ambient_passo df) linhas_digitadas (PerguntaBusca, []) with
  | (Terminado, []) => Retorna None
  | (Terminado, inventario_client) => Retorna (Some inventario_client)
  | (ErroPadrao, _) => PadraoInvalido
  | (_, _) => FimDaEntrada
  end.

End ColetaInterativa.

(** ** The inventory of the agent tool *)

(** [Servidor] of [agente-llama.py]. *)
Record Servidor : Type := mkServidor {
  srv_modelo : string;
  srv_servidores : Z;
  srv_cores : Z;
  srv_utilizacao : Q
}.

(** [inventario[modelo] = dados]: a present key keeps its place and takes
    the new value. *)
Fixpoint inv_set (inventario_client : inventario) (modelo : string) (dados : Dados)
    : inventario :=
  match inventario_client with
  | [] => [(modelo, dados)]
  | (m, d) :: resto =>
      if String.eqb modelo m then (m, dados) :: resto
      else (m, d) :: inv_set resto modelo dados
  end.

(** The dict comprehension [inventario_dict] of
    [calcular_cenarios_de_sizing]. *)
Definition inventario_dict (inventario_cliente : list Servidor) : inventario :=
  fold_left
    (fun inv s => inv_set inv (srv_modelo s)
                    {| inv_cores := srv_cores s;
                       inv_servidores := srv_servidores s;
                       inv_utilizacao := srv_utilizacao s |})
    inventario_cliente [].

(** ** The request of the handler *)



(** ** Further predicates of the statements *)

(** The scenario of configuration A in the worked example. *)
Definition cenarioA : Cenario := mkCenario "A" "X" 1 16 16 (16 # 20) 1.

(** Eleven families with one configuration each, all like configuration A,
    and the scenario that each of them gets for a requirement of 15. *)
Definition nomes_onze : list string :=
  ["F00"; "F01"; "F02"; "F03"; "F04"; "F05"; "F06"; "F07"; "F08"; "F09";
   "F10"]%string.

Definition onze_familias : list Linha :=
  map (fun f => mkLinha f f "p10" 20 (Fin 20) (Fin 1)) nomes_onze.

Definition cenarios_onze : list Cenario :=
  map (fun f => mkCenario f f 1 16 16 (16 # 20) 1) nomes_onze.

(** The two sort keys are equal. *)
Definition chave_igual (a b : Cenario) : bool := chave_leb a b && chave_leb b a.

(** An inventory line as the data model has it: positive counts and a
    utilisation above zero. *)
Definition dados_positivos (d : Dados) : Prop :=
  0 < inv_servidores d /\ 0 < inv_cores d /\ (0 < inv_utilizacao d)%Q.

(** Every row of the table has a positive finite performance per core. *)
Definition tabela_positiva (df : list Linha) : Prop :=
  forall l, In l df -> exists q, rPerf_por_Core l = Fin q /\ (0 < q)%Q.

(** The sum of the server counts of the entries given for a model. *)
Definition total_servidores (modelo : string) (entradas : list (string * Dados)) : Z :=
  fold_right Z.add 0
    (map (fun e => inv_servidores (snd e))
         (filter (fun e => String.eqb (fst e) modelo) entradas)).

(** The row that a line of the file becomes when its cores cell parses to
    the finite number [q]. *)
Definition linha_normalizada (r : LinhaCSV) (q : Q) : Linha :=
  {| Modelo_Unico := csv_Modelo_Unico r;
     Modelo_Base := csv_Modelo_Base r;
     Processador := csv_Processador r;
     Cores_Maximos := trunca q;
     rPerf_Total := csv_rPerf_Total r;
     rPerf_por_Core := np_div (csv_rPerf_Total r) (trunca q) |}.

(** The champion of a family stands in the emitted list after scenarios of
    its family that are all strictly worse, and before scenarios of its
    family that are not better. *)
Definition primeiro_minimo (vistos : list Cenario) (d : dict) : Prop :=
  forall k v, In (k, v) d ->
    exists antes depois,
      vistos = antes ++ v :: depois /\
      (forall c, In c antes -> modelo_base c = k -> ~ chave_le c v) /\
      (forall c, In c depois -> modelo_base c = k -> chave_le v c).

(** The labels of the table: the index that [str.contains] searches. *)
Definition rotulos (df : list Linha) : list string := map Modelo_Unico df.

(** The model that a prompt of [client_ambient] is about is a label of the
    table. *)
Definition pergunta_valida (df : list Linha) (p : pergunta) : Prop :=
  match p with
  | PerguntaEscolha matches => forall m, In m matches -> In m (rotulos df)
  | PerguntaCores m | PerguntaPico m _ | PerguntaServidores m _ _ => In m (rotulos df)
  | PerguntaBusca | Terminado | ErroPadrao => True
  end.

(** The state of the loop of [client_ambient] between two lines: the models
    of the inventory are distinct labels of the table. *)
Definition estado_valido (df : list Linha) (estado : pergunta * inventario) : Prop :=
  pergunta_valida df (fst estado) /\
  NoDup (map fst (snd estado)) /\
  forall k, In k (map fst (snd estado)) -> In k (rotulos df).

(** The four lines of a round of [client_ambient] in which the search has a
    single match: the search text and the answers to the three prompts. *)
Record rodada : Type := mkRodada {
  rd_busca : string;
  rd_cores : string;
  rd_pico : string;
  rd_servidores : string
}.

Definition rodada_linhas (r : rodada) : list string :=
  [rd_busca r; rd_cores r; rd_pico r; rd_servidores r].

(** The entry that such a round adds, when every answer is accepted. *)
Definition rodada_entrada (str_contains : string -> option (string -> bool))
    (py_int : string -> option Z) (df : list Linha) (r : rodada)
    : option (string * Dados) :=
  if vazia (rd_busca r) then None
  else
    match str_contains (rd_busca r) with
    | None => None
    | Some contem =>
        match filter contem (rotulos df) with
        | [String a m] =>
            match py_int (rd_cores r),
                  (if vazia (rd_pico r) then Some 1%Q
                   else option_map (fun k => (inject_Z k / 100)%Q) (py_int (rd_pico r))),
                  (if vazia (rd_servidores r) then Some 1 else py_int (rd_servidores r))
            with
            | Some c, Some u, Some n => Some (String a m, mkDados c n u)
            | _, _, _ => None
            end
        | _ => None
        end
    end.

(** Plain search of a text inside a label, and the integer written by a
    decimal literal: the instances of [str.contains] and [int] that the
    examples use. *)
Fixpoint contem_texto (busca rotulo : string) : bool :=
  String.prefix busca rotulo
  || match rotulo with
     | EmptyString => false
     | String _ resto => contem_texto busca resto
     end.

Definition int_literal (s : string) : option Z :=
  match to_numeric_literal s with
  | Fin q => Some (Qnum q)
  | PInf | NInf | NaN => None
  end.

(** Configurations A and B as [data_preparation] builds them from the cells
    [20c] and [40c]. *)
Definition tabela_AB : list Linha :=
  [linha_normalizada (mkLinhaCSV "A" "X" "p10" "20c" (Fin 20)) 20;
   linha_normalizada (mkLinhaCSV "B" "X" "p10" "40c" (Fin 40)) 40].



(** The text has the letter c somewhere. *)
Fixpoint tem_c (s : string) : bool :=
  match s with
  | EmptyString => false
  | String a s' => Ascii.eqb a "c"%char || tem_c s'
  end.

(** The intermediate lists of the end of [rank_cenarios]. *)
Definition lista_de_campeoes (cenarios_validos : list Cenario) : list Cenario :=
  dict_values (seleciona cenarios_validos).

Definition cenarios_finais_ordenados (cenarios_validos : list Cenario) : list Cenario :=
  sorted (lista_de_campeoes cenarios_validos).

(** The families of a list of scenarios in the order in which they first
    appear, those of [vistas] apart. *)
Fixpoint primeiras_familias (vistas : list string) (l : list Cenario) : list string :=
  match l with
  | [] => []
  | c :: l' =>
      if existsb (String.eqb (modelo_base c)) vistas
      then primeiras_familias vistas l'
      else modelo_base c :: primeiras_familias (vistas ++ [modelo_base c]) l'
  end.

(** The rows that the request handler tries for a machine. *)
Definition configs (fullmatch : string -> string -> bool) (df : list Linha)
    (machine : ClientMachine) : list Linha :=
  filter (fun l => fullmatch (cm_modelo machine) (Modelo_Base l)
                   && (Cores_Maximos l =? cm_cores machine)) df.

(** The sum, over the machines of a request, of the quantity times the total
    rating of the first configuration found for the machine; [None] when a
    machine has no configuration or the rating is not finite. *)
Definition rating_total (fullmatch : string -> string -> bool) (df : list Linha)
    (maquinas : list ClientMachine) : option Q :=
  fold_left
    (fun acc machine =>
       match acc, configs fullmatch df machine with
       | Some a, l :: _ =>
           match rPerf_Total l with
           | Fin x => Some (a + inject_Z (cm_quantidade machine) * x)%Q
           | PInf | NInf | NaN => None
           end
       | _, _ => None
       end)
    maquinas (Some 0%Q).

(** The rows are as [data_preparation] builds them: the performance per core
    is the total rating divided by the core ceiling. *)
Definition tabela_derivada (df : list Linha) : Prop :=
  forall l, In l df -> rPerf_por_Core l = np_div (rPerf_Total l) (Cores_Maximos l).

(** * Properties *)

(** ** Helper facts on the number model *)

Lemma Qlt_bool_iff (x y : Q) : Qlt_bool x y = true <-> (x < y)%Q.
Proof.
  unfold Qlt_bool. rewrite negb_true_iff.
  split; intro H.
  - apply Qnot_le_lt. intro Hle. apply Qle_bool_iff in Hle. congruence.
  - destruct (Qle_bool y x) eqn:E; [|reflexivity].
    apply Qle_bool_iff in E. exfalso. apply (Qlt_not_le _ _ H E).
Qed.

Lemma Qlt_bool_false_iff (x y : Q) : Qlt_bool x y = false <-> (y <= x)%Q.
Proof.
  unfold Qlt_bool. rewrite negb_false_iff. apply Qle_bool_iff.
Qed.

Lemma inject_Z_zero (z : Z) : (inject_Z z == 0)%Q -> z = 0.
Proof.
  unfold Qeq. simpl. lia.
Qed.

Lemma cores_pares_even (a : Z) : Z.even (cores_pares a) = true.
Proof.
  unfold cores_pares. rewrite Zmod_even.
  destruct (Z.even a) eqn:E; simpl.
  - exact E.
  - rewrite Z.even_add, E. reflexivity.
Qed.

Lemma cores_pares_bounds (a : Z) : a <= cores_pares a <= a + 1.
Proof.
  unfold cores_pares. destruct (negb (a mod 2 =? 0)); lia.
Qed.

(** The code's average times the server count gives back the cores needed. *)
Lemma media_vezes_servidores (r p : Q) (m : Z) :
  num_servidores_real r p m <> 0 ->
  (cores_por_servidor_media r p m * inject_Z (num_servidores_real r p m)
   == cores_necessarios r p)%Q.
Proof.
  intro Hn. unfold cores_por_servidor_media.
  field. intro H. apply Hn. now apply inject_Z_zero.
Qed.

Lemma teorico_vezes_maximos (r p : Q) (m : Z) :
  m <> 0 ->
  (num_servidores_teorico r p m * inject_Z m == cores_necessarios r p)%Q.
Proof.
  intro Hm. unfold num_servidores_teorico.
  field. intro H. apply Hm. now apply inject_Z_zero.
Qed.

Lemma necessarios_vezes_rperf (r p : Q) :
  ~ (p == 0)%Q -> (cores_necessarios r p * p == r)%Q.
Proof.
  intro Hp. unfold cores_necessarios. field. exact Hp.
Qed.

Lemma inject_Z_le (a b : Z) : a <= b -> (inject_Z a <= inject_Z b)%Q.
Proof.
  intro H. now rewrite <- Zle_Qle.
Qed.

Lemma inject_Z_lt (a b : Z) : a < b -> (inject_Z a < inject_Z b)%Q.
Proof.
  intro H. now rewrite <- Zlt_Qlt.
Qed.

(** ** The scenario emitted for one candidate *)

(** What an emitted scenario is made of. *)
Lemma avalia_finito_Some (r : Q) (linha : Linha) (p : Q) (c : Cenario) :
  avalia_finito r linha p = Some c ->
  let m := Cores_Maximos linha in
  let n := num_servidores_real r p m in
  let k := cores_ativos_por_servidor r p m in
  n <> 0 /\ (60 # 100 <= inject_Z k / inject_Z m)%Q /\ k <= m /\
  c = {| modelo_unico := Modelo_Unico linha;
         modelo_base := Modelo_Base linha;
         servidores := n;
         cores_por_servidor := k;
         rperf_novo := (inject_Z (n * k) * p)%Q;
         utilizacao_cores := (inject_Z k / inject_Z m)%Q;
         excedente_rperf := (inject_Z (n * k) * p - r)%Q |}.
Proof.
  intros H m n k. unfold avalia_finito in H. cbv zeta in H. fold m n k in H.
  destruct (n =? 0) eqn:En; [discriminate|].
  destruct (Qlt_bool (inject_Z k / inject_Z m) (60 # 100) || (m <? k)) eqn:Ef;
    [discriminate|].
  apply orb_false_iff in Ef. destruct Ef as [Eu Ek].
  apply Qlt_bool_false_iff in Eu. apply Z.ltb_ge in Ek. apply Z.eqb_neq in En.
  injection H as <-. auto.
Qed.




(** C2.  The worked example: family X with configuration A (20 cores) and
    configuration B (40 cores), one unit of performance per core, and a
    required performance of 15.  A needs 15 cores, 0.75 of a server, hence one
    server with 15 cores rounded up to the even 16; it is accepted with
    utilisation 0.80, total 16 and surplus 1.  B is rejected because its
    utilisation 16/40 is below 0.60, and the ranking is A's scenario alone. *)
Theorem exemplo_familia_X :
  (cores_necessarios 15 1 == 15)%Q /\
  (num_servidores_teorico 15 1 20 == 75 # 100)%Q /\
  num_servidores_real 15 1 20 = 1 /\
  cores_ativos_arredondado 15 1 20 = 15 /\
  cores_ativos_por_servidor 15 1 20 = 16 /\
  (exists a,
     avalia_alvo 15 linhaA = Ok (Some a) /\
     modelo_unico a = "A"%string /\ modelo_base a = "X"%string /\
     servidores a = 1 /\ cores_por_servidor a = 16 /\
     (utilizacao_cores a == 80 # 100)%Q /\
     (rperf_novo a == 16)%Q /\ (excedente_rperf a == 1)%Q /\
     rank_cenarios [linhaA; linhaB] 15 = Ok [a]) /\
  num_servidores_real 15 1 40 = 1 /\
  cores_ativos_por_servidor 15 1 40 = 16 /\
  (inject_Z 16 / inject_Z 40 == 40 # 100)%Q /\
  avalia_alvo 15 linhaB = Ok None.
Proof.
  split; [reflexivity|].
  split; [reflexivity|].
  split; [reflexivity|].
  split; [reflexivity|].
  split; [reflexivity|].
  split.
  - eexists. split; [reflexivity|]. cbn.
    repeat (split; [reflexivity|]). reflexivity.
  - repeat (split; [reflexivity|]). reflexivity.
Qed.

(** ** A required performance that is not positive *)

Lemma avalia_alvo_bem_formada (r : Q) (l : Linha) (p : Q) :
  bem_formada l p -> avalia_alvo r l = Ok (avalia_finito r l p).
Proof.
  intros (Hperf & Hp & Hm). unfold avalia_alvo. rewrite Hperf.
  destruct (Qeq_bool p 0) eqn:E.
  - apply Qeq_bool_iff in E. rewrite E in Hp. discriminate.
  - destruct (Cores_Maximos l =? 0) eqn:E0; [|reflexivity].
    apply Z.eqb_eq in E0. lia.
Qed.





(** ** The two-key order *)

Lemma chave_leb_iff (a b : Cenario) : chave_leb a b = true <-> chave_le a b.
Proof.
  unfold chave_leb, chave_le.
  rewrite orb_true_iff, andb_true_iff, Z.ltb_lt, Z.eqb_eq, Qle_bool_iff.
  reflexivity.
Qed.

Lemma chave_le_refl (a : Cenario) : chave_le a a.
Proof.
  right. split; [reflexivity|apply Qle_refl].
Qed.

Lemma chave_le_trans (a b c : Cenario) : chave_le a b -> chave_le b c -> chave_le a c.
Proof.
  unfold chave_le. intros [H1|[H1 H1']] [H2|[H2 H2']].
  - left; lia.
  - left; lia.
  - left; lia.
  - right. split; [lia|]. eapply Qle_trans; eassumption.
Qed.

Lemma chave_leb_false (a b : Cenario) : chave_leb a b = false -> chave_le b a.
Proof.
  unfold chave_leb, chave_le. intro H.
  apply orb_false_iff in H. destruct H as [H1 H2].
  apply Z.ltb_ge in H1. apply andb_false_iff in H2.
  destruct (Z.eq_dec (servidores a) (servidores b)) as [E|E].
  - destruct H2 as [H2|H2].
    + apply Z.eqb_neq in H2. contradiction.
    + right. split; [auto|].
      apply Qlt_le_weak. apply Qnot_le_lt. intro Hle.
      apply Qle_bool_iff in Hle. congruence.
  - left. lia.
Qed.

Lemma substitui_true (c a : Cenario) : substitui c a = true -> chave_le c a.
Proof.
  unfold substitui, chave_le.
  rewrite orb_true_iff, andb_true_iff, Z.ltb_lt, Z.eqb_eq, Qlt_bool_iff.
  intros [H|[H1 H2]]; [now left|].
  right. split; [assumption|now apply Qlt_le_weak].
Qed.

Lemma substitui_false (c a : Cenario) : substitui c a = false -> chave_le a c.
Proof.
  unfold substitui, chave_le. intro H.
  apply orb_false_iff in H. destruct H as [H1 H2].
  apply Z.ltb_ge in H1. apply andb_false_iff in H2.
  destruct (Z.eq_dec (servidores c) (servidores a)) as [E|E].
  - destruct H2 as [H2|H2].
    + apply Z.eqb_neq in H2. contradiction.
    + right. split; [auto|]. now apply Qlt_bool_false_iff.
  - left. lia.
Qed.

(** ** The dictionary of champions *)

Lemma dict_get_set_same (k : string) (v : Cenario) (d : dict) :
  dict_get k (dict_set k v d) = Some v.
Proof.
  induction d as [|[k' v'] d IH]; cbn.
  - now rewrite String.eqb_refl.
  - destruct (String.eqb_spec k k') as [->|Hne]; cbn.
    + now rewrite String.eqb_refl.
    + destruct (String.eqb_spec k k'); [contradiction|exact IH].
Qed.

Lemma dict_get_set_other (k k0 : string) (v : Cenario) (d : dict) :
  k0 <> k -> dict_get k0 (dict_set k v d) = dict_get k0 d.
Proof.
  intro Hne. induction d as [|[k' v'] d IH]; cbn.
  - destruct (String.eqb_spec k0 k); [contradiction|reflexivity].
  - destruct (String.eqb_spec k k') as [->|Hne']; cbn.
    + destruct (String.eqb_spec k0 k'); [contradiction|reflexivity].
    + destruct (String.eqb_spec k0 k'); [reflexivity|exact IH].
Qed.

Lemma dict_set_In (k k0 : string) (v v0 : Cenario) (d : dict) :
  In (k0, v0) (dict_set k v d) -> (k0 = k /\ v0 = v) \/ In (k0, v0) d.
Proof.
  induction d as [|[k' v'] d IH]; cbn.
  - intros [H|[]]. injection H as <- <-. now left.
  - destruct (String.eqb_spec k k') as [->|Hne]; cbn.
    + intros [H|H]; [injection H as <- <-; now left|right; now right].
    + intros [H|H]; [right; now left|].
      destruct (IH H) as [?|?]; [now left|right; now right].
Qed.

Lemma dict_set_keys (k k0 : string) (v : Cenario) (d : dict) :
  In k0 (map fst (dict_set k v d)) -> k0 = k \/ In k0 (map fst d).
Proof.
  induction d as [|[k' v'] d IH]; cbn.
  - intros [H|[]]. now left.
  - destruct (String.eqb_spec k k') as [->|Hne]; cbn.
    + intros [H|H]; [now left|right; now right].
    + intros [H|H]; [right; now left|].
      destruct (IH H) as [?|?]; [now left|right; now right].
Qed.

Lemma dict_set_NoDup (k : string) (v : Cenario) (d : dict) :
  NoDup (map fst d) -> NoDup (map fst (dict_set k v d)).
Proof.
  induction d as [|[k' v'] d IH]; cbn; intro H.
  - constructor; [intros []|constructor].
  - inversion H as [|? ? Hnin Hnd]; subst.
    destruct (String.eqb_spec k k') as [->|Hne]; cbn.
    + now constructor.
    + constructor; [|now apply IH].
      intro Hin. apply dict_set_keys in Hin. destruct Hin as [->|Hin]; auto.
Qed.

Lemma dict_In_get (k : string) (v : Cenario) (d : dict) :
  NoDup (map fst d) -> In (k, v) d -> dict_get k d = Some v.
Proof.
  induction d as [|[k' v'] d IH]; cbn; [intros _ []|].
  intros Hnd [H|H].
  - injection H as -> ->. now rewrite String.eqb_refl.
  - inversion Hnd as [|? ? Hnin Hnd']; subst.
    destruct (String.eqb_spec k k') as [->|Hne].
    + exfalso. apply Hnin. apply (in_map fst) in H. exact H.
    + now apply IH.
Qed.

Lemma campeoes_vazio : campeoes [] [].
Proof.
  split.
  - constructor.
  - intros k v [].
  - intros c [].
Qed.

Lemma campeoes_passo (vistos : list Cenario) (d : dict) (c : Cenario) :
  campeoes vistos d -> campeoes (vistos ++ [c]) (seleciona_passo d c).
Proof.
  intros [Hnd Horig Hmin]. unfold seleciona_passo.
  destruct (dict_get (modelo_base c) d) as [a|] eqn:Eget.
  - destruct (substitui c a) eqn:Esub.
    + apply substitui_true in Esub. split.
      * now apply dict_set_NoDup.
      * intros k v Hin. apply dict_set_In in Hin.
        destruct Hin as [[-> ->]|Hin].
        -- split; [reflexivity|]. apply in_or_app. right. now left.
        -- destruct (Horig k v Hin) as [? ?]. split; [assumption|].
           apply in_or_app. now left.
      * intros x Hx. apply in_app_or in Hx.
        destruct (string_dec (modelo_base x) (modelo_base c)) as [E|E].
        -- rewrite E, dict_get_set_same. exists c. split; [reflexivity|].
           destruct Hx as [Hx|[<-|[]]]; [|apply chave_le_refl].
           destruct (Hmin x Hx) as (v & Hv & Hle).
           rewrite E, Eget in Hv. injection Hv as <-.
           eapply chave_le_trans; eassumption.
        -- rewrite dict_get_set_other by assumption.
           destruct Hx as [Hx|[<-|[]]]; [now apply Hmin|contradiction].
    + apply substitui_false in Esub. split.
      * assumption.
      * intros k v Hin. destruct (Horig k v Hin) as [? ?]. split; [assumption|].
        apply in_or_app. now left.
      * intros x Hx. apply in_app_or in Hx.
        destruct Hx as [Hx|[<-|[]]]; [now apply Hmin|].
        exists a. split; assumption.
  - split.
    + now apply dict_set_NoDup.
    + intros k v Hin. apply dict_set_In in Hin.
      destruct Hin as [[-> ->]|Hin].
      * split; [reflexivity|]. apply in_or_app. right. now left.
      * destruct (Horig k v Hin) as [? ?]. split; [assumption|].
        apply in_or_app. now left.
    + intros x Hx. apply in_app_or in Hx.
      destruct Hx as [Hx|[<-|[]]].
      * destruct (Hmin x Hx) as (v & Hv & Hle).
        destruct (string_dec (modelo_base x) (modelo_base c)) as [E|E].
        -- rewrite E, Eget in Hv. discriminate.
        -- rewrite dict_get_set_other by assumption. now exists v.
      * rewrite dict_get_set_same. exists c. split; [reflexivity|apply chave_le_refl].
Qed.

Lemma campeoes_fold (l vistos : list Cenario) (d : dict) :
  campeoes vistos d -> campeoes (vistos ++ l) (fold_left seleciona_passo l d).
Proof.
  revert vistos d. induction l as [|c l IH]; intros vistos d H; cbn.
  - now rewrite app_nil_r.
  - replace (vistos ++ c :: l) with ((vistos ++ [c]) ++ l)
      by (rewrite <- app_assoc; reflexivity).
    apply IH. now apply campeoes_passo.
Qed.

Lemma campeoes_seleciona (l : list Cenario) : campeoes l (seleciona l).
Proof.
  exact (campeoes_fold l campeoes_vazio).
Qed.

(** ** The stable sort and the truncation *)

Lemma insere_Permutation (x : Cenario) (l : list Cenario) :
  Permutation (insere x l) (x :: l).
Proof.
  induction l as [|y l IH]; cbn.
  - reflexivity.
  - destruct (chave_leb x y).
    + reflexivity.
    + rewrite IH. apply perm_swap.
Qed.

Lemma sorted_Permutation (l : list Cenario) : Permutation (sorted l) l.
Proof.
  induction l as [|x l IH]; cbn.
  - constructor.
  - rewrite insere_Permutation. now constructor.
Qed.

Lemma insere_StronglySorted (x : Cenario) (l : list Cenario) :
  StronglySorted chave_le l -> StronglySorted chave_le (insere x l).
Proof.
  induction l as [|y l IH]; cbn; intro H.
  - constructor; constructor.
  - inversion H as [|? ? Hl Hy]; subst.
    destruct (chave_leb x y) eqn:E.
    + apply chave_leb_iff in E. constructor; [assumption|].
      constructor; [assumption|].
      eapply Forall_impl; [|exact Hy].
      intros z Hz. eapply chave_le_trans; eassumption.
    + apply chave_leb_false in E. constructor; [now apply IH|].
      apply (Permutation_Forall (Permutation_sym (insere_Permutation x l))).
      now constructor.
Qed.

Lemma sorted_StronglySorted (l : list Cenario) : StronglySorted chave_le (sorted l).
Proof.
  induction l as [|x l IH]; cbn.
  - constructor.
  - now apply insere_StronglySorted.
Qed.

Lemma firstn_incl {A : Type} (n : nat) (l : list A) (x : A) :
  In x (firstn n l) -> In x l.
Proof.
  revert l. induction n as [|n IH]; intros [|y l]; cbn; try tauto.
  intros [H|H]; [now left|right; now apply IH].
Qed.

Lemma firstn_StronglySorted (n : nat) (l : list Cenario) :
  StronglySorted chave_le l -> StronglySorted chave_le (firstn n l).
Proof.
  revert l. induction n as [|n IH]; intros [|y l] H; cbn; try constructor.
  - inversion H; subst. now apply IH.
  - inversion H as [|? ? _ Hy]; subst.
    rewrite Forall_forall in *. intros z Hz. apply Hy.
    now apply firstn_incl in Hz.
Qed.

Lemma firstn_NoDup {A : Type} (n : nat) (l : list A) :
  NoDup l -> NoDup (firstn n l).
Proof.
  revert l. induction n as [|n IH]; intros [|y l] H; cbn; try constructor.
  - inversion H; subst. intro Hin. apply firstn_incl in Hin. contradiction.
  - inversion H; subst. now apply IH.
Qed.

(** The families of the champions are the keys of the dictionary. *)
Lemma campeoes_familias (vistos : list Cenario) (d : dict) :
  campeoes vistos d -> map modelo_base (dict_values d) = map fst d.
Proof.
  intros [_ Horig _]. unfold dict_values. rewrite map_map.
  apply map_ext_in. intros [k v] Hin. cbn. now destruct (Horig k v Hin).
Qed.

(** A well-formed target subset raises nothing. *)
Lemma gera_cenarios_bem_formada (df_alvo : list Linha) (r : Q) :
  (forall l, In l df_alvo -> exists p, bem_formada l p) ->
  exists validos, gera_cenarios df_alvo r = Ok validos.
Proof.
  induction df_alvo as [|l df IH]; intro H; cbn [gera_cenarios].
  - now exists [].
  - destruct (H l (or_introl eq_refl)) as (p & Hbf).
    rewrite (avalia_alvo_bem_formada r Hbf). cbn [bind].
    destruct IH as (validos & ->); [intros; apply H; now right|].
    cbn [bind]. eexists. reflexivity.
Qed.

(** ** The ranking *)

(** The end of the ranking, on any list of emitted scenarios (the one of
    [rank_cenarios] and the one of [calcular_sizing], whose surplus is
    rounded to two decimals before it is compared). *)
Lemma top_cenarios_campeoes (validos : list Cenario) :
  (List.length (top_cenarios validos) <= 10)%nat /\
  NoDup (map modelo_base (top_cenarios validos)) /\
  StronglySorted chave_le (top_cenarios validos) /\
  forall s, In s (top_cenarios validos) ->
    In s validos /\
    forall c, In c validos -> modelo_base c = modelo_base s -> chave_le s c.
Proof.
  unfold top_cenarios. cbv zeta.
  pose proof (campeoes_seleciona validos) as Hc.
  pose proof (sorted_Permutation (dict_values (seleciona validos))) as Hperm.
  split; [apply firstn_le_length|].
  split.
  { rewrite <- firstn_map. apply firstn_NoDup.
    apply (Permutation_NoDup (l := map modelo_base (dict_values (seleciona validos)))).
    - apply Permutation_map. now apply Permutation_sym.
    - rewrite (campeoes_familias Hc). apply (campeoes_chaves Hc). }
  split.
  { apply firstn_StronglySorted. apply sorted_StronglySorted. }
  intros s Hs. apply firstn_incl in Hs.
  apply (Permutation_in _ Hperm) in Hs.
  unfold dict_values in Hs. apply in_map_iff in Hs.
  destruct Hs as ([k v] & <- & Hin). cbn.
  destruct (campeoes_origem Hc _ _ Hin) as [Hk Hv].
  split; [exact Hv|].
  intros c Hcin Hfam.
  destruct (campeoes_minimo Hc c Hcin) as (v' & Hget & Hle).
  rewrite Hfam, Hk in Hget.
  rewrite (@dict_In_get k v _ (campeoes_chaves Hc) Hin) in Hget.
  injection Hget as <-. exact Hle.
Qed.

(** C1.  Whenever [rank_cenarios] returns (and it does on every target subset
    whose rows have a positive core ceiling and a positive finite performance
    per core), for every required performance: the list has at most 10
    scenarios, no two of the same family, sorted in ascending order of
    [(servidores, excedente_rperf)]; and each returned scenario is one of the
    feasible scenarios emitted by the candidate loop and is not after any
    emitted scenario of its family in that two-key order. *)
Theorem rank_cenarios_campeoes (df_alvo : list Linha) (r : Q) :
  ((forall l, In l df_alvo -> exists p, bem_formada l p) ->
   exists top, rank_cenarios df_alvo r = Ok top) /\
  (forall top, rank_cenarios df_alvo r = Ok top ->
   exists validos,
     gera_cenarios df_alvo r = Ok validos /\
     (List.length top <= 10)%nat /\
     NoDup (map modelo_base top) /\
     StronglySorted chave_le top /\
     forall s, In s top ->
       In s validos /\
       forall c, In c validos -> modelo_base c = modelo_base s -> chave_le s c).
Proof.
  split.
  - intro H. destruct (gera_cenarios_bem_formada df_alvo r H) as (validos & Hg).
    unfold rank_cenarios. rewrite Hg. cbn [bind]. eexists. reflexivity.
  - intros top Hrank. unfold rank_cenarios in Hrank.
    destruct (gera_cenarios df_alvo r) as [validos|e] eqn:Hg; [|discriminate].
    cbn [bind] in Hrank. injection Hrank as <-.
    exists validos. split; [reflexivity|].
    apply top_cenarios_campeoes.
Qed.

Lemma rank_cenarios_campeoes_witness :
  exists top, rank_cenarios [linhaA; linhaB] 15 = Ok top /\
  exists validos,
     gera_cenarios [linhaA; linhaB] 15 = Ok validos /\
     (List.length top <= 10)%nat /\
     NoDup (map modelo_base top) /\
     StronglySorted chave_le top /\
     forall s, In s top ->
       In s validos /\
       forall c, In c validos -> modelo_base c = modelo_base s -> chave_le s c.
Proof.
  destruct (rank_cenarios_campeoes [linhaA; linhaB] 15) as [Hret Hprop].
  destruct Hret as (top & Htop).
  - intros l [<-|[<-|[]]]; exists 1%Q; repeat split.
  - exists top. split; [exact Htop|]. now apply Hprop.
Defined.

(** ** The base requirement *)


Lemma feq_sym (x y : float64) : feq x y -> feq y x.
Proof.
  destruct x, y; cbn; auto. apply Qeq_sym.
Qed.






Lemma mesmo_resultado_sym (x y : resultado float64) :
  mesmo_resultado x y -> mesmo_resultado y x.
Proof.
  destruct x, y; cbn; auto. apply feq_sym.
Qed.










Lemma client_ambient_snoc (entradas : list (string * Dados)) (e : string * Dados) :
  client_ambient (entradas ++ [e])
  = registra (client_ambient entradas) (fst e) (inv_cores (snd e))
      (inv_utilizacao (snd e)) (inv_servidores (snd e)).
Proof.
  unfold client_ambient. now rewrite fold_left_app.
Qed.









(** C10.  On an empty inventory the summation loop of [rperf_calc] raises
    nothing and leaves the base requirement at exactly 0, whatever the
    performance table; without a projection that 0 is what [rperf_calc]
    returns. *)
Theorem rperf_base_inventario_vazio (df : list Linha) :
  rperf_base df [] = Ok (Fin 0) /\
  rperf_calc df [] "n" None None = Ok (Fin 0).
Proof.
  split; reflexivity.
Qed.

(** ** Growth *)


Lemma py_pow_Ok (x : Q) (n : Z) :
  0 <= n \/ ~ (x == 0)%Q -> py_pow x n = Ok (x ^ n)%Q.
Proof.
  intro H. unfold py_pow.
  destruct (Qeq_bool x 0) eqn:E0; [|reflexivity].
  destruct (n <? 0) eqn:En; [|reflexivity].
  apply Qeq_bool_iff in E0. apply Z.ltb_lt in En.
  destruct H as [H|H]; [lia|contradiction].
Qed.


(** The value computed by the tail of [rperf_calc] when a projection is asked
    for and both answers parse. *)
Lemma projecao_crescimento_valor (base t : Q) (a : Z) :
  0 <= a \/ ~ (1 + t / 100 == 0)%Q ->
  exists v, projecao_crescimento (Fin base) "s" (Some t) (Some a) = Ok (Fin v)
            /\ (v == base * (1 + t / 100) ^ a)%Q.
Proof.
  intro H. unfold projecao_crescimento. cbn [String.eqb Ascii.eqb Bool.eqb].
  rewrite (py_pow_Ok H). cbn [bind fmul].
  eexists. split; reflexivity.
Qed.



(** C7.  For a negative rate or a negative number
    of years, the request model [GrowthProjection] refuses the parameters
    before anything is computed, whereas the tail of [rperf_calc] accepts
    them and returns the shrunk requirement [base * (1 + t/100) ^ a]. *)
Theorem crescimento_negativo_calculado (base t : Q) (a : Z) :
  (t < 0)%Q \/ a < 0 ->
  valida_GrowthProjection t a = Raise ValidationError /\
  (0 <= a \/ ~ (1 + t / 100 == 0)%Q ->
   exists v, projecao_crescimento (Fin base) "s" (Some t) (Some a) = Ok (Fin v)
             /\ (v == base * (1 + t / 100) ^ a)%Q).
Proof.
  intro Hneg. split.
  - unfold valida_GrowthProjection.
    destruct (Qle_bool 0 t) eqn:Et; cbn; [|reflexivity].
    destruct (0 <=? a) eqn:Ea; [|reflexivity].
    apply Qle_bool_iff in Et. apply Z.leb_le in Ea.
    destruct Hneg as [H|H]; [lra|lia].
  - apply projecao_crescimento_valor.
Qed.

Lemma crescimento_negativo_calculado_witness :
  valida_GrowthProjection (-50) 2 = Raise ValidationError /\
  exists v, projecao_crescimento (Fin 100) "s" (Some (-50)%Q) (Some 2) = Ok (Fin v)
            /\ (v == 25)%Q.
Proof.
  destruct (@crescimento_negativo_calculado 100 (-50) 2) as [Hv Hc].
  - left. reflexivity.
  - split; [exact Hv|].
    destruct Hc as (v & Hv' & Hval); [left; lia|].
    exists v. split; [exact Hv'|]. rewrite Hval. reflexivity.
Defined.

(** ** Building the table *)

Section PreparacaoProps.

Variable to_numeric : string -> float64.





Lemma prepara_Ok (t : TabelaCSV) (par : list Linha * list Linha) :
  prepara to_numeric t = Ok par <->
  tem_colunas t = true /\
  normaliza to_numeric (linhas t) = Ok (fst par) /\
  snd par = filter (fun l => isin_p10_p11 (Processador l)) (fst par).
Proof.
  unfold prepara, tem_colunas, colunas_usadas, coluna. cbn [forallb].
  destruct (existsb (String.eqb "Cores_Maximos") (colunas t)); cbn [bind andb];
    [|split; [discriminate|intros [H _]; discriminate]].
  destruct (normaliza to_numeric (linhas t)) as [df|e]; cbn [bind].
  - destruct (existsb (String.eqb "Frequencia_GHz") (colunas t)); cbn [bind andb];
      [|split; [discriminate|intros [H _]; discriminate]].
    destruct (existsb (String.eqb "rPerf_Total") (colunas t)); cbn [bind andb];
      [|split; [discriminate|intros [H _]; discriminate]].
    destruct (existsb (String.eqb "Modelo_Unico") (colunas t)); cbn [bind andb];
      [|split; [discriminate|intros [H _]; discriminate]].
    destruct (existsb (String.eqb "Processador") (colunas t)); cbn [bind andb];
      [|split; [discriminate|intros [H _]; discriminate]].
    destruct par as [df' alvo]. cbn [fst snd]. split.
    + intro H. injection H as <- <-. auto.
    + intros (_ & H & ->). injection H as <-. reflexivity.
  - split; [discriminate|]. intros (_ & H & _). discriminate.
Qed.

End PreparacaoProps.


Lemma data_preparation_Some (to_numeric : string -> float64) (t : TabelaCSV)
    (df df_alvo : list Linha) :
  data_preparation to_numeric (Some t) = Some (df, df_alvo) <->
  tem_colunas t = true /\
  normaliza to_numeric (linhas t) = Ok df /\
  df_alvo = filter (fun l => isin_p10_p11 (Processador l)) df.
Proof.
  rewrite <- (prepara_Ok to_numeric t (df, df_alvo)). cbn [data_preparation].
  destruct (prepara to_numeric t) as [par|e].
  - split; intro H; injection H as ->; reflexivity.
  - split; discriminate.
Qed.







(** * Further properties of the code *)

(** ** The scenario of one candidate *)

Lemma avalia_alvo_emitido (r : Q) (l : Linha) (p : Q) (c : Cenario) :
  bem_formada l p -> avalia_alvo r l = Ok (Some c) ->
  num_servidores_real r p (Cores_Maximos l) <> 0 /\
  cores_ativos_por_servidor r p (Cores_Maximos l) <= Cores_Maximos l /\
  servidores c = num_servidores_real r p (Cores_Maximos l) /\
  cores_por_servidor c = cores_ativos_por_servidor r p (Cores_Maximos l) /\
  excedente_rperf c
  = (inject_Z (num_servidores_real r p (Cores_Maximos l)
               * cores_ativos_por_servidor r p (Cores_Maximos l)) * p - r)%Q.
Proof.
  intros Hbf H. rewrite (avalia_alvo_bem_formada r Hbf) in H.
  injection H as H. apply avalia_finito_Some in H.
  destruct H as (Hn & _ & Hk & ->). cbn. auto.
Qed.

(** The server count is the ceiling of the requirement over the capacity of
    one server. *)
Lemma num_servidores_real_teto (r p : Q) (m : Z) :
  (0 < p)%Q -> 0 < m ->
  (inject_Z (num_servidores_real r p m - 1) * (p * inject_Z m) < r)%Q /\
  (r <= inject_Z (num_servidores_real r p m) * (p * inject_Z m))%Q.
Proof.
  intros Hp Hm.
  assert (Hp0 : ~ (p == 0)%Q) by (intro E; rewrite E in Hp; discriminate).
  pose proof (necessarios_vezes_rperf r Hp0) as Hc.
  pose proof (@teorico_vezes_maximos r p m ltac:(lia)) as Ht.
  pose proof (Qle_ceiling (num_servidores_teorico r p m)) as Hup.
  pose proof (Qceiling_lt (num_servidores_teorico r p m)) as Hdown.
  fold (num_servidores_real r p m) in Hup, Hdown.
  pose proof (inject_Z_lt Hm) as HM. change (inject_Z 0) with 0%Q in HM.
  assert (HpM : (0 < p * inject_Z m)%Q) by (apply Qmult_lt_0_compat; assumption).
  set (M := inject_Z m) in *.
  set (t := num_servidores_teorico r p m) in *.
  set (c := cores_necessarios r p) in *.
  set (n := num_servidores_real r p m) in *.
  assert (Hr : (t * (p * M) == r)%Q) by (rewrite <- Hc, <- Ht; ring).
  split.
  - assert (inject_Z (n - 1) * (p * M) < t * (p * M))%Q
      by (apply Qmult_lt_compat_r; assumption).
    lra.
  - assert (t * (p * M) <= inject_Z n * (p * M))%Q
      by (apply Qmult_le_compat_r; [assumption|now apply Qlt_le_weak]).
    lra.
Qed.

(** The active cores are the ceiling of the average, raised to an even
    number: with two cores fewer per server the average is not reached. *)
Lemma cores_ativos_por_servidor_teto (r p : Q) (m : Z) :
  (inject_Z (cores_ativos_por_servidor r p m - 2) < cores_por_servidor_media r p m)%Q /\
  (cores_por_servidor_media r p m <= inject_Z (cores_ativos_por_servidor r p m))%Q.
Proof.
  pose proof (Qle_ceiling (cores_por_servidor_media r p m)) as Hup.
  pose proof (Qceiling_lt (cores_por_servidor_media r p m)) as Hdown.
  fold (cores_ativos_arredondado r p m) in Hup, Hdown.
  pose proof (cores_pares_bounds (cores_ativos_arredondado r p m)) as [Hlo Hhi].
  fold (cores_ativos_por_servidor r p m) in Hlo, Hhi.
  split.
  - eapply Qle_lt_trans; [|exact Hdown]. apply inject_Z_le. lia.
  - eapply Qle_trans; [exact Hup|]. now apply inject_Z_le.
Qed.

Lemma num_servidores_real_positivo (r p : Q) (m : Z) :
  (0 < r)%Q -> (0 < p)%Q -> 0 < m -> 1 <= num_servidores_real r p m.
Proof.
  intros Hr Hp Hm.
  destruct (num_servidores_real_teto r Hp Hm) as [_ Hup].
  assert (HpM : (0 < p * inject_Z m)%Q).
  { apply Qmult_lt_0_compat; [assumption|].
    change 0%Q with (inject_Z 0). now apply inject_Z_lt. }
  set (n := num_servidores_real r p m) in *.
  destruct (Z_lt_le_dec 0 n) as [|Hle]; [lia|]. exfalso.
  assert (inject_Z n <= 0)%Q
    by (change 0%Q with (inject_Z 0); now apply inject_Z_le).
  assert ((0 - inject_Z n) * (p * inject_Z m) >= 0)%Q
    by (apply Qmult_le_0_compat; lra).
  lra.
Qed.

(** X1.  For a positive requirement and a row with a positive core ceiling
    and a positive finite performance per core, an emitted scenario has at
    least one server and at least two active cores per server. *)
Theorem cenario_emitido_positivo (r : Q) (l : Linha) (p : Q) (c : Cenario) :
  (0 < r)%Q -> bem_formada l p -> avalia_alvo r l = Ok (Some c) ->
  1 <= servidores c /\ 2 <= cores_por_servidor c.
Proof.
  intros Hr Hbf H.
  destruct (avalia_alvo_emitido r Hbf H) as (Hn & _ & -> & -> & _).
  destruct Hbf as (_ & Hp & Hm).
  pose proof (num_servidores_real_positivo Hr Hp Hm) as Hn1.
  split; [exact Hn1|].
  destruct (cores_ativos_por_servidor_teto r p (Cores_Maximos l)) as [_ Hk].
  pose proof (media_vezes_servidores r p (Cores_Maximos l) Hn) as Hd.
  assert (Hp0 : ~ (p == 0)%Q) by (intro E; rewrite E in Hp; discriminate).
  pose proof (necessarios_vezes_rperf r Hp0) as Hc.
  set (n := num_servidores_real r p (Cores_Maximos l)) in *.
  set (k := cores_ativos_por_servidor r p (Cores_Maximos l)) in *.
  set (d := cores_por_servidor_media r p (Cores_Maximos l)) in *.
  assert (HN : (1 <= inject_Z n)%Q)
    by (change 1%Q with (inject_Z 1); now apply inject_Z_le).
  assert (Hdpos : (0 < d)%Q).
  { apply Qnot_le_lt. intro Hd0.
    assert ((0 - d) * inject_Z n >= 0)%Q by (apply Qmult_le_0_compat; lra).
    assert (cores_necessarios r p <= 0)%Q by lra.
    assert ((0 - cores_necessarios r p) * p >= 0)%Q
      by (apply Qmult_le_0_compat; lra).
    lra. }
  assert (Hk1 : 0 < k).
  { rewrite Zlt_Qlt. change (inject_Z 0) with 0%Q. lra. }
  pose proof (cores_pares_even (cores_ativos_arredondado r p (Cores_Maximos l))) as Hev.
  fold (cores_ativos_por_servidor r p (Cores_Maximos l)) in Hev. fold k in Hev.
  destruct (Z.eq_dec k 1) as [E|E]; [rewrite E in Hev; discriminate|lia].
Qed.

Lemma cenario_emitido_positivo_witness :
  exists c, avalia_alvo 15 linhaA = Ok (Some c) /\
            1 <= servidores c /\ 2 <= cores_por_servidor c.
Proof.
  eexists. split; [reflexivity|].
  apply (@cenario_emitido_positivo 15 linhaA 1).
  - reflexivity.
  - repeat split.
  - reflexivity.
Defined.





(** ** Ties, completeness and truncation of the ranking *)

Lemma substitui_estrito (c a x : Cenario) :
  substitui c a = true -> chave_le a x -> ~ chave_le x c.
Proof.
  unfold substitui, chave_le.
  rewrite orb_true_iff, andb_true_iff, Z.ltb_lt, Z.eqb_eq, Qlt_bool_iff.
  intros [H|[H1 H2]] [H3|[H3 H4]] [H5|[H5 H6]]; try lia.
  assert (excedente_rperf a <= excedente_rperf c)%Q
    by (eapply Qle_trans; eassumption).
  apply (Qlt_not_le _ _ H2). assumption.
Qed.

Lemma primeiro_minimo_passo (vistos : list Cenario) (d : dict) (c : Cenario) :
  campeoes vistos d -> primeiro_minimo vistos d ->
  primeiro_minimo (vistos ++ [c]) (seleciona_passo d c).
Proof.
  intros Hc Hp.
  pose proof (campeoes_passo c Hc) as Hc'.
  assert (Hvelho : forall k v, In (k, v) d -> k <> modelo_base c ->
            exists antes depois,
              vistos ++ [c] = antes ++ v :: depois /\
              (forall x, In x antes -> modelo_base x = k -> ~ chave_le x v) /\
              (forall x, In x depois -> modelo_base x = k -> chave_le v x)).
  { intros k v Hin Hne. destruct (Hp k v Hin) as (antes & depois & -> & Ha & Hd).
    exists antes, (depois ++ [c]). split; [now rewrite <- app_assoc|].
    split; [exact Ha|].
    intros x Hx Hk. apply in_app_or in Hx.
    destruct Hx as [Hx|[<-|[]]]; [now apply Hd|]. congruence. }
  assert (Hnovo : (forall x, In x vistos -> modelo_base x = modelo_base c ->
                     ~ chave_le x c) ->
            exists antes depois,
              vistos ++ [c] = antes ++ c :: depois /\
              (forall x, In x antes -> modelo_base x = modelo_base c -> ~ chave_le x c) /\
              (forall x, In x depois -> modelo_base x = modelo_base c -> chave_le c x)).
  { intro H. exists vistos, []. split; [reflexivity|]. split; [exact H|].
    intros x []. }
  unfold seleciona_passo in *.
  destruct (dict_get (modelo_base c) d) as [a|] eqn:Eget.
  - destruct (substitui c a) eqn:Esub.
    + intros k v Hin.
      destruct (string_dec k (modelo_base c)) as [->|Hne].
      * assert (v = c) as ->.
        { pose proof (@dict_In_get _ _ _ (campeoes_chaves Hc') Hin) as Hg.
          rewrite dict_get_set_same in Hg. congruence. }
        apply Hnovo. intros x Hx Hk.
        destruct (campeoes_minimo Hc x Hx) as (v' & Hv' & Hle).
        rewrite Hk, Eget in Hv'. injection Hv' as <-.
        eapply substitui_estrito; eassumption.
      * apply dict_set_In in Hin. destruct Hin as [[-> _]|Hin]; [contradiction|].
        now apply Hvelho.
    + intros k v Hin.
      destruct (string_dec k (modelo_base c)) as [->|Hne]; [|now apply Hvelho].
      assert (v = a) as ->.
      { pose proof (@dict_In_get _ _ _ (campeoes_chaves Hc) Hin) as Hg. congruence. }
      destruct (Hp _ _ Hin) as (antes & depois & -> & Ha & Hd).
      exists antes, (depois ++ [c]). split; [now rewrite <- app_assoc|].
      split; [exact Ha|].
      intros x Hx Hk. apply in_app_or in Hx.
      destruct Hx as [Hx|[<-|[]]]; [now apply Hd|]. now apply substitui_false.
  - intros k v Hin.
    destruct (string_dec k (modelo_base c)) as [->|Hne].
    + assert (v = c) as ->.
      { pose proof (@dict_In_get _ _ _ (campeoes_chaves Hc') Hin) as Hg.
        rewrite dict_get_set_same in Hg. congruence. }
      apply Hnovo. intros x Hx Hk.
      destruct (campeoes_minimo Hc x Hx) as (v' & Hv' & _).
      rewrite Hk, Eget in Hv'. discriminate.
    + apply dict_set_In in Hin. destruct Hin as [[-> _]|Hin]; [contradiction|].
      now apply Hvelho.
Qed.

Lemma primeiro_minimo_fold (l vistos : list Cenario) (d : dict) :
  campeoes vistos d -> primeiro_minimo vistos d ->
  primeiro_minimo (vistos ++ l) (fold_left seleciona_passo l d).
Proof.
  revert vistos d. induction l as [|c l IH]; intros vistos d Hc Hp; cbn.
  - now rewrite app_nil_r.
  - replace (vistos ++ c :: l) with ((vistos ++ [c]) ++ l)
      by (rewrite <- app_assoc; reflexivity).
    apply IH; [now apply campeoes_passo|now apply primeiro_minimo_passo].
Qed.

Lemma primeiro_minimo_seleciona (l : list Cenario) : primeiro_minimo l (seleciona l).
Proof.
  apply (primeiro_minimo_fold l campeoes_vazio). intros k v [].
Qed.

Lemma top_cenarios_In (validos : list Cenario) (s : Cenario) :
  In s (top_cenarios validos) -> In (modelo_base s, s) (seleciona validos).
Proof.
  unfold top_cenarios. cbv zeta. intro Hs. apply firstn_incl in Hs.
  apply (Permutation_in _ (sorted_Permutation _)) in Hs.
  unfold dict_values in Hs. apply in_map_iff in Hs.
  destruct Hs as ([k v] & <- & Hin). cbn.
  destruct (campeoes_origem (campeoes_seleciona validos) _ _ Hin) as [-> _].
  exact Hin.
Qed.

(** X4.  Among the scenarios of one family that tie on both keys, the one
    emitted first is kept: each returned scenario is strictly before every
    scenario of its family that was emitted earlier, and not after any that
    was emitted later. *)
Theorem rank_cenarios_desempate (df_alvo : list Linha) (r : Q)
    (validos top : list Cenario) (s : Cenario) :
  gera_cenarios df_alvo r = Ok validos ->
  rank_cenarios df_alvo r = Ok top ->
  In s top ->
  exists antes depois,
    validos = antes ++ s :: depois /\
    (forall c, In c antes -> modelo_base c = modelo_base s -> ~ chave_le c s) /\
    (forall c, In c depois -> modelo_base c = modelo_base s -> chave_le s c).
Proof.
  intros Hg Hrank Hs. unfold rank_cenarios in Hrank. rewrite Hg in Hrank.
  cbn [bind] in Hrank.
  assert (Htop : top = top_cenarios validos) by (injection Hrank as <-; reflexivity).
  subst top. apply top_cenarios_In in Hs.
  exact (primeiro_minimo_seleciona validos _ _ Hs).
Qed.

Lemma dict_get_In (k : string) (v : Cenario) (d : dict) :
  dict_get k d = Some v -> In (k, v) d.
Proof.
  induction d as [|[k' v'] d IH]; cbn; [discriminate|].
  destruct (String.eqb_spec k k') as [->|Hne].
  - intro H. injection H as ->. now left.
  - intro H. right. now apply IH.
Qed.

(** Every emitted scenario has the champion of its family among the sorted
    champions. *)
Lemma campeao_ordenado (validos : list Cenario) (c : Cenario) :
  In c validos ->
  exists v, In v (sorted (dict_values (seleciona validos))) /\
            modelo_base v = modelo_base c /\ chave_le v c.
Proof.
  intro Hc.
  destruct (campeoes_minimo (campeoes_seleciona validos) c Hc) as (v & Hget & Hle).
  apply dict_get_In in Hget.
  exists v. split; [|split; [|exact Hle]].
  - apply (Permutation_in _ (Permutation_sym (sorted_Permutation _))).
    unfold dict_values. apply in_map_iff. now exists (modelo_base c, v).
  - now destruct (campeoes_origem (campeoes_seleciona validos) _ _ Hget).
Qed.

Lemma StronglySorted_app (l1 l2 : list Cenario) :
  StronglySorted chave_le (l1 ++ l2) ->
  forall a b, In a l1 -> In b l2 -> chave_le a b.
Proof.
  induction l1 as [|x l1 IH]; intros H a b Ha Hb; [destruct Ha|].
  cbn in H. inversion H as [|? ? Hs Hf]; subst.
  destruct Ha as [<-|Ha].
  - rewrite Forall_forall in Hf. apply Hf. apply in_or_app. now right.
  - now apply IH.
Qed.

Lemma rank_cenarios_Ok (df_alvo : list Linha) (r : Q) (validos top : list Cenario) :
  gera_cenarios df_alvo r = Ok validos -> rank_cenarios df_alvo r = Ok top ->
  top = firstn 10 (sorted (dict_values (seleciona validos))).
Proof.
  intros Hg Hrank. unfold rank_cenarios in Hrank. rewrite Hg in Hrank.
  cbn [bind] in Hrank. injection Hrank as <-. reflexivity.
Qed.

(** X5.  The ranking is empty exactly when no scenario was emitted, and its
    first element is not after any emitted scenario, of any family, in the
    two-key order. *)
Theorem rank_cenarios_melhor (df_alvo : list Linha) (r : Q)
    (validos top : list Cenario) :
  gera_cenarios df_alvo r = Ok validos ->
  rank_cenarios df_alvo r = Ok top ->
  (top = [] <-> validos = []) /\
  forall s resto, top = s :: resto -> forall c, In c validos -> chave_le s c.
Proof.
  intros Hg Hrank. rewrite (rank_cenarios_Ok _ _ Hg Hrank). clear Hrank.
  pose proof (sorted_StronglySorted (dict_values (seleciona validos))) as Hsort.
  split; [split|].
  - intro Hnil. destruct validos as [|c validos]; [reflexivity|]. exfalso.
    destruct (@campeao_ordenado (c :: validos) c (or_introl eq_refl)) as (v & Hv & _).
    destruct (sorted (dict_values (seleciona (c :: validos)))); [destruct Hv|].
    discriminate Hnil.
  - intros ->. reflexivity.
  - intros s resto Htop c Hc.
    destruct (campeao_ordenado validos c Hc) as (v & Hv & _ & Hle).
    destruct (sorted (dict_values (seleciona validos))) as [|x L]; [destruct Hv|].
    cbn in Htop. injection Htop as -> _.
    destruct Hv as [<-|Hv]; [exact Hle|].
    inversion Hsort as [|? ? _ Hf]; subst. rewrite Forall_forall in Hf.
    eapply chave_le_trans; [apply Hf; exact Hv|exact Hle].
Qed.

Lemma rank_cenarios_melhor_witness :
  ([cenarioA] = [] <-> [cenarioA] = []) /\
  forall s resto, [cenarioA] = s :: resto -> forall c, In c [cenarioA] -> chave_le s c.
Proof.
  apply (@rank_cenarios_melhor [linhaA; linhaB] 15 [cenarioA] [cenarioA]); reflexivity.
Defined.

Lemma rank_cenarios_desempate_witness :
  exists antes depois,
    [cenarioA] = antes ++ cenarioA :: depois /\
    (forall c, In c antes -> modelo_base c = modelo_base cenarioA -> ~ chave_le c cenarioA) /\
    (forall c, In c depois -> modelo_base c = modelo_base cenarioA -> chave_le cenarioA c).
Proof.
  apply (@rank_cenarios_desempate [linhaA; linhaB] 15 [cenarioA] [cenarioA] cenarioA);
    [reflexivity|reflexivity|].
  left. reflexivity.
Defined.

Lemma seleciona_familias (validos : list Cenario) :
  (List.length (seleciona validos)
   <= List.length (nodup string_dec (map modelo_base validos)))%nat.
Proof.
  pose proof (campeoes_seleciona validos) as Hc.
  rewrite <- (length_map fst (seleciona validos)).
  apply NoDup_incl_length; [apply (campeoes_chaves Hc)|].
  intros k Hk. apply in_map_iff in Hk. destruct Hk as ([k' v] & <- & Hin). cbn.
  destruct (campeoes_origem Hc _ _ Hin) as [<- Hv].
  apply nodup_In. now apply in_map.
Qed.

(** X6.  When the emitted scenarios belong to at most ten families, no
    family is lost: every emitted scenario has a scenario of its family in
    the ranking that is not after it. *)
Theorem rank_cenarios_completo (df_alvo : list Linha) (r : Q)
    (validos top : list Cenario) :
  gera_cenarios df_alvo r = Ok validos ->
  rank_cenarios df_alvo r = Ok top ->
  (List.length (nodup string_dec (map modelo_base validos)) <= 10)%nat ->
  forall c, In c validos ->
    exists s, In s top /\ modelo_base s = modelo_base c /\ chave_le s c.
Proof.
  intros Hg Hrank Hlen c Hc. rewrite (rank_cenarios_Ok _ _ Hg Hrank). clear Hrank.
  destruct (campeao_ordenado validos c Hc) as (v & Hv & Hfam & Hle).
  exists v. split; [|now split].
  rewrite firstn_all2; [exact Hv|].
  rewrite (Permutation_length (sorted_Permutation _)).
  unfold dict_values. rewrite length_map.
  eapply Nat.le_trans; [apply seleciona_familias|exact Hlen].
Qed.

Lemma rank_cenarios_completo_witness :
  exists s, In s [cenarioA] /\ modelo_base s = modelo_base cenarioA /\ chave_le s cenarioA.
Proof.
  apply (@rank_cenarios_completo [linhaA; linhaB] 15 [cenarioA] [cenarioA]);
    [reflexivity|reflexivity| |left; reflexivity].
  vm_compute. lia.
Defined.

(** X7.  The cut to ten drops only the worst: a family without a scenario in
    the ranking has all its emitted scenarios not before any returned
    scenario. *)
Theorem rank_cenarios_corte (df_alvo : list Linha) (r : Q)
    (validos top : list Cenario) (c : Cenario) :
  gera_cenarios df_alvo r = Ok validos ->
  rank_cenarios df_alvo r = Ok top ->
  In c validos ->
  (forall s, In s top -> modelo_base s <> modelo_base c) ->
  forall s, In s top -> chave_le s c.
Proof.
  intros Hg Hrank Hc Hfora s Hs. rewrite (rank_cenarios_Ok _ _ Hg Hrank) in *.
  clear Hrank.
  destruct (campeao_ordenado validos c Hc) as (v & Hv & Hfam & Hle).
  pose proof (sorted_StronglySorted (dict_values (seleciona validos))) as Hsort.
  set (L := sorted (dict_values (seleciona validos))) in *.
  rewrite <- (firstn_skipn 10 L) in Hv, Hsort.
  apply in_app_or in Hv. destruct Hv as [Hv|Hv].
  - exfalso. exact (Hfora v Hv Hfam).
  - eapply chave_le_trans; [|exact Hle].
    exact (StronglySorted_app _ _ Hsort s v Hs Hv).
Qed.

Lemma rank_cenarios_corte_witness :
  chave_le (mkCenario "F00" "F00" 1 16 16 (16 # 20) 1)
           (mkCenario "F10" "F10" 1 16 16 (16 # 20) 1).
Proof.
  apply (@rank_cenarios_corte onze_familias 15 cenarios_onze (firstn 10 cenarios_onze)
           (mkCenario "F10" "F10" 1 16 16 (16 # 20) 1)).
  - reflexivity.
  - reflexivity.
  - do 10 right. left. reflexivity.
  - intros s Hs. cbn in Hs.
    repeat (destruct Hs as [<-|Hs]; [discriminate|]). destruct Hs.
  - left. reflexivity.
Defined.

(** ** Resolution and sign of the base requirement *)

Lemma loc_rPerf_por_Core_casos (df : list Linha) (modelo : string) :
  (exists l, filter (fun l => String.eqb (Modelo_Unico l) modelo) df = [l]
             /\ loc_rPerf_por_Core df modelo = Ok (rPerf_por_Core l)) \/
  (filter (fun l => String.eqb (Modelo_Unico l) modelo) df = []
   /\ loc_rPerf_por_Core df modelo = Raise KeyError) \/
  ((2 <= List.length (filter (fun l => String.eqb (Modelo_Unico l) modelo) df))%nat
   /\ loc_rPerf_por_Core df modelo = Raise TypeError).
Proof.
  unfold loc_rPerf_por_Core.
  destruct (filter (fun l => String.eqb (Modelo_Unico l) modelo) df) as [|l [|l' rest]].
  - right. left. auto.
  - left. exists l. auto.
  - right. right. split; [cbn; lia|reflexivity].
Qed.

Lemma soma_rperf_resolucao (df : list Linha) (itens : inventario) (a : float64) :
  ((exists v, soma_rperf df itens a = Ok v) <->
   forall m d, In (m, d) itens ->
     exists l, filter (fun l => String.eqb (Modelo_Unico l) m) df = [l]) /\
  (forall e, soma_rperf df itens a = Raise e ->
     exists m d, In (m, d) itens /\
       ((e = KeyError /\ filter (fun l => String.eqb (Modelo_Unico l) m) df = []) \/
        (e = TypeError /\
         (2 <= List.length (filter (fun l => String.eqb (Modelo_Unico l) m) df))%nat))).
Proof.
  revert a. induction itens as [|[m d] resto IH]; intro a; cbn [soma_rperf].
  - split; [split|].
    + intros _ m d [].
    + intros _. now exists a.
    + discriminate.
  - destruct (loc_rPerf_por_Core_casos df m) as [(l & Hf & ->)|[(Hf & ->)|(Hf & ->)]];
      cbn [bind].
    + destruct (IH (fadd a (rperf_total_modelo d (rPerf_por_Core l)))) as [IH1 IH2].
      split; [split|].
      * intros Hok m' d' [H|H]; [injection H as <- <-; now exists l|].
        now apply (proj1 IH1 Hok m' d').
      * intro H. apply IH1. intros m' d' Hin. apply (H m' d'). now right.
      * intros e He. destruct (IH2 e He) as (m' & d' & Hin & Hcase).
        exists m', d'. split; [now right|exact Hcase].
    + split; [split|].
      * intros (v & Hv). discriminate.
      * intro H. destruct (H m d (or_introl eq_refl)) as (l & Hl). congruence.
      * intros e He. injection He as <-. exists m, d. split; [now left|]. now left.
    + split; [split|].
      * intros (v & Hv). discriminate.
      * intro H. destruct (H m d (or_introl eq_refl)) as (l & Hl).
        rewrite Hl in Hf. cbn in Hf. lia.
      * intros e He. injection He as <-. exists m, d. split; [now left|]. now right.
Qed.

(** X8.  The summation loop of [rperf_calc] returns a value exactly when
    every model of the inventory is the label of exactly one row of the
    table; otherwise it raises for a line of the inventory: [KeyError] when
    no row carries its model, [TypeError] when several do. *)
Theorem rperf_base_resolucao (df : list Linha) (inventario_client : inventario) :
  ((exists v, rperf_base df inventario_client = Ok v) <->
   forall m d, In (m, d) inventario_client ->
     exists l, filter (fun l => String.eqb (Modelo_Unico l) m) df = [l]) /\
  (forall e, rperf_base df inventario_client = Raise e ->
     exists m d, In (m, d) inventario_client /\
       ((e = KeyError /\ filter (fun l => String.eqb (Modelo_Unico l) m) df = []) \/
        (e = TypeError /\
         (2 <= List.length (filter (fun l => String.eqb (Modelo_Unico l) m) df))%nat))).
Proof.
  apply soma_rperf_resolucao.
Qed.

Lemma rperf_base_resolucao_witness :
  exists m d, In (m, d) [("A"%string, mkDados 8 2 1); ("Z"%string, mkDados 4 1 1)] /\
    ((KeyError = KeyError /\
      filter (fun l => String.eqb (Modelo_Unico l) m) [linhaA; linhaB] = []) \/
     (KeyError = TypeError /\
      (2 <= List.length (filter (fun l => String.eqb (Modelo_Unico l) m)
                           [linhaA; linhaB]))%nat)).
Proof.
  apply (proj2 (rperf_base_resolucao [linhaA; linhaB]
                  [("A"%string, mkDados 8 2 1); ("Z"%string, mkDados 4 1 1)]) KeyError).
  reflexivity.
Defined.

Lemma soma_rperf_positiva (df : list Linha) (itens : inventario) (a : Q) :
  tabela_positiva df ->
  (forall m d, In (m, d) itens -> dados_positivos d) ->
  (forall m d, In (m, d) itens ->
     exists l, filter (fun l => String.eqb (Modelo_Unico l) m) df = [l]) ->
  exists v, soma_rperf df itens (Fin a) = Ok (Fin v) /\ (a <= v)%Q /\
            (itens <> [] -> (a < v)%Q).
Proof.
  intros Hpos. revert a. induction itens as [|[m d] resto IH]; intros a Hd Hres.
  - exists a. split; [reflexivity|]. split; [apply Qle_refl|]. congruence.
  - cbn [soma_rperf].
    destruct (Hres m d (or_introl eq_refl)) as (l & Hl).
    unfold loc_rPerf_por_Core. rewrite Hl. cbn [bind].
    assert (Hin : In l df).
    { apply (proj1 (filter_In (fun l => String.eqb (Modelo_Unico l) m) l df)).
      rewrite Hl. now left. }
    destruct (Hpos l Hin) as (q & -> & Hq).
    destruct (Hd m d (or_introl eq_refl)) as (Hs & Hc & Hu).
    cbn [rperf_total_modelo fmul fadd].
    destruct (IH (a + inject_Z (inv_servidores d * inv_cores d) * q * inv_utilizacao d)%Q)
      as (v & Hv & Hle & _).
    { intros m' d' Hin'. apply (Hd m' d'). now right. }
    { intros m' d' Hin'. apply (Hres m' d'). now right. }
    exists v. split; [exact Hv|].
    assert (Hsc : (0 < inject_Z (inv_servidores d * inv_cores d))%Q).
    { change 0%Q with (inject_Z 0). apply inject_Z_lt. lia. }
    assert (Hprod : (0 < inject_Z (inv_servidores d * inv_cores d) * q
                         * inv_utilizacao d)%Q).
    { apply Qmult_lt_0_compat; [|assumption].
      apply Qmult_lt_0_compat; assumption. }
    split; [lra|]. intros _. lra.
Qed.

(** X9.  On a table whose performance figures are positive and finite, an
    inventory whose models all resolve and whose lines have positive server
    counts, cores and utilisation gives a finite base requirement that is
    not negative, and positive as soon as there is a line. *)
Theorem rperf_base_positiva (df : list Linha) (inventario_client : inventario) :
  tabela_positiva df ->
  (forall m d, In (m, d) inventario_client -> dados_positivos d) ->
  (forall m d, In (m, d) inventario_client ->
     exists l, filter (fun l => String.eqb (Modelo_Unico l) m) df = [l]) ->
  exists v, rperf_base df inventario_client = Ok (Fin v) /\ (0 <= v)%Q /\
            (inventario_client <> [] -> (0 < v)%Q).
Proof.
  intros Hpos Hd Hres. now apply soma_rperf_positiva.
Qed.

Lemma rperf_base_positiva_witness :
  exists v, rperf_base [linhaA; linhaB] [("A"%string, mkDados 8 2 (1 # 2))] = Ok (Fin v) /\
            (0 <= v)%Q /\
            ([("A"%string, mkDados 8 2 (1 # 2))] <> [] -> (0 < v)%Q).
Proof.
  apply (@rperf_base_positiva [linhaA; linhaB] [("A"%string, mkDados 8 2 (1 # 2))]).
  - intros l [<-|[<-|[]]]; exists 1%Q; split; reflexivity.
  - intros m d [H|[]]. injection H as <- <-. repeat split.
  - intros m d [H|[]]. injection H as <- <-. exists linhaA. reflexivity.
Defined.



(** ** What [client_ambient] keeps of the entries *)

Lemma registra_inv_get (inv : inventario) (m m' : string) (c : Z) (u : Q) (n : Z) :
  inv_get m (registra inv m' c u n)
  = if String.eqb m m' then
      match inv_get m inv with
      | Some d => Some {| inv_cores := inv_cores d;
                          inv_servidores := inv_servidores d + n;
                          inv_utilizacao := inv_utilizacao d |}
      | None => Some (mkDados c n u)
      end
    else inv_get m inv.
Proof.
  induction inv as [|[m0 d0] resto IH]; cbn [registra inv_get].
  - destruct (String.eqb_spec m m'); reflexivity.
  - destruct (String.eqb_spec m' m0) as [->|Hne]; cbn [inv_get].
    + destruct (String.eqb_spec m m0) as [->|Hne']; reflexivity.
    + destruct (String.eqb_spec m m0) as [->|Hne'].
      * destruct (String.eqb_spec m0 m'); [congruence|reflexivity].
      * exact IH.
Qed.

Lemma registra_chaves (inv : inventario) (m : string) (c : Z) (u : Q) (n : Z) :
  map fst (registra inv m c u n)
  = if existsb (String.eqb m) (map fst inv) then map fst inv else map fst inv ++ [m].
Proof.
  induction inv as [|[m0 d0] resto IH]; cbn [registra map existsb fst app].
  - reflexivity.
  - destruct (String.eqb_spec m m0) as [->|Hne]; cbn [orb map fst].
    + reflexivity.
    + rewrite IH. destruct (existsb (String.eqb m) (map fst resto)); reflexivity.
Qed.

Lemma registra_NoDup (inv : inventario) (m : string) (c : Z) (u : Q) (n : Z) :
  NoDup (map fst inv) -> NoDup (map fst (registra inv m c u n)).
Proof.
  intro H. rewrite registra_chaves.
  destruct (existsb (String.eqb m) (map fst inv)) eqn:E; [exact H|].
  apply NoDup_app; [exact H|constructor; [intros []|constructor]|].
  intros k Hk [Hm|[]]. subst k.
  assert (existsb (String.eqb m) (map fst inv) = true); [|congruence].
  apply existsb_exists. exists m. split; [exact Hk|apply String.eqb_refl].
Qed.

Lemma fold_right_add_app (l1 l2 : list Z) :
  fold_right Z.add 0 (l1 ++ l2) = fold_right Z.add 0 l1 + fold_right Z.add 0 l2.
Proof.
  induction l1 as [|x l1 IH]; cbn; [reflexivity|]. rewrite IH. lia.
Qed.

(** X11.  The inventory built by [client_ambient] has one entry per model
    entered; the entry of a model carries the active cores and the
    utilisation of the first batch entered for it, and the sum of the server
    counts of all its batches. *)
Theorem client_ambient_acumula (entradas : list (string * Dados)) (m : string) :
  NoDup (map fst (client_ambient entradas)) /\
  inv_get m (client_ambient entradas)
  = match filter (fun e => String.eqb (fst e) m) entradas with
    | [] => None
    | e :: _ => Some {| inv_cores := inv_cores (snd e);
                        inv_servidores := total_servidores m entradas;
                        inv_utilizacao := inv_utilizacao (snd e) |}
    end.
Proof.
  induction entradas as [|[m' d'] entradas IH] using rev_ind.
  - split; [constructor|reflexivity].
  - destruct IH as [Hnd Hget]. rewrite client_ambient_snoc. cbn [fst snd].
    split; [now apply registra_NoDup|].
    rewrite registra_inv_get, Hget. unfold total_servidores.
    rewrite filter_app, map_app, fold_right_add_app. cbn [filter fst].
    rewrite (String.eqb_sym m' m).
    destruct (String.eqb_spec m m') as [->|Hne].
    + destruct (filter (fun e => String.eqb (fst e) m') entradas) as [|e rest];
        cbn [app map fold_right snd inv_cores inv_servidores inv_utilizacao].
      * destruct d'. cbn. f_equal. f_equal. lia.
      * f_equal. f_equal. lia.
    + rewrite app_nil_r. cbn [map fold_right].
      destruct (filter (fun e => String.eqb (fst e) m) entradas) as [|e rest];
        [reflexivity|].
      f_equal. f_equal. lia.
Qed.

(** ** The interactive collection *)

Lemma apos_selecao_valida (df : list Linha) (m : string) :
  In m (rotulos df) -> pergunta_valida df (apos_selecao m).
Proof.
  intro H. destruct m; cbn; [exact I|exact H].
Qed.

Lemma client_ambient_passo_valido (str_contains : string -> option (string -> bool))
    (py_int : string -> option Z) (df : list Linha) (estado : pergunta * inventario)
    (linha : string) :
  estado_valido df estado ->
  estado_valido df (client_ambient_passo str_contains py_int df estado linha).
Proof.
  destruct estado as [p inv]. intros (Hp & Hnd & Hk).
  unfold client_ambient_passo. cbn [fst snd] in *.
  assert (Hbusca : estado_valido df (PerguntaBusca, inv)) by (repeat split; assumption).
  destruct p as [|ms|m|m c|m c u| |]; cbn [pergunta_valida] in Hp.
  - destruct (vazia linha); [repeat split; assumption|].
    destruct (str_contains linha) as [contem|]; [|repeat split; assumption].
    destruct (filter contem (map Modelo_Unico df)) as [|m [|m' ms]] eqn:E.
    + exact Hbusca.
    + split; [|split; assumption]. cbn [fst]. apply apos_selecao_valida.
      apply (proj1 (filter_In contem m (map Modelo_Unico df))). rewrite E. now left.
    + split; [|split; assumption]. cbn [fst pergunta_valida]. intros x Hx.
      apply (proj1 (filter_In contem x (map Modelo_Unico df))). now rewrite E.
  - destruct (py_int linha) as [escolha|]; [|exact Hbusca].
    destruct ((1 <=? escolha) && (escolha <=? Z.of_nat (List.length ms))) eqn:E;
      [|exact Hbusca].
    apply andb_true_iff in E. destruct E as [E1 E2].
    apply Z.leb_le in E1, E2.
    split; [|split; assumption]. cbn [fst]. apply apos_selecao_valida.
    apply Hp. apply nth_In. lia.
  - destruct (py_int linha); [|exact Hbusca]. repeat split; assumption.
  - destruct (vazia linha); [repeat split; assumption|].
    destruct (py_int linha); [|exact Hbusca]. repeat split; assumption.
  - destruct (if vazia linha then Some 1 else py_int linha) as [n|]; [|exact Hbusca].
    split; [exact I|]. cbn [snd]. split; [now apply registra_NoDup|].
    intros k. rewrite registra_chaves.
    destruct (existsb (String.eqb m) (map fst inv)); [apply Hk|].
    intro H. apply in_app_or in H. destruct H as [H|[<-|[]]]; [now apply Hk|exact Hp].
  - repeat split; assumption.
  - repeat split; assumption.
Qed.

Lemma client_ambient_fold_valido (str_contains : string -> option (string -> bool))
    (py_int : string -> option Z) (df : list Linha) (linhas_digitadas : list string)
    (estado : pergunta * inventario) :
  estado_valido df estado ->
  estado_valido df
    (fold_left (client_ambient_passo str_contains py_int df) linhas_digitadas estado).
Proof.
  revert estado. induction linhas_digitadas as [|x xs IH]; intros estado H; cbn.
  - exact H.
  - apply IH. now apply client_ambient_passo_valido.
Qed.

Lemma filter_rotulo_unico (df : list Linha) (m : string) :
  NoDup (rotulos df) -> In m (rotulos df) ->
  exists l, filter (fun l => String.eqb (Modelo_Unico l) m) df = [l].
Proof.
  unfold rotulos. induction df as [|l df IH]; cbn; [intros _ []|].
  intros Hnd Hin. inversion Hnd as [|? ? Hnin Hnd']; subst.
  destruct (String.eqb_spec (Modelo_Unico l) m) as [E|E].
  - exists l. f_equal.
    assert (Hnone : forall l', In l' df -> String.eqb (Modelo_Unico l') m = false).
    { intros l' Hl'. destruct (String.eqb_spec (Modelo_Unico l') m) as [E'|]; [|reflexivity].
      exfalso. apply Hnin. rewrite E, <- E'. now apply in_map. }
    clear -Hnone. induction df as [|x df IH]; [reflexivity|].
    cbn. rewrite (Hnone x (or_introl eq_refl)). apply IH.
    intros l' Hl'. apply Hnone. now right.
  - destruct Hin as [Hin|Hin]; [contradiction|]. now apply IH.
Qed.

(** X12.  Whatever is typed, an inventory returned by [client_ambient] is
    not empty and its models are distinct labels of the table; when the
    labels of the table are distinct, the summation loop of [rperf_calc]
    resolves every line of it and raises nothing. *)
Theorem client_ambient_io_resolve (str_contains : string -> option (string -> bool))
    (py_int : string -> option Z) (df : list Linha) (linhas_digitadas : list string)
    (inventario_client : inventario) :
  client_ambient_io str_contains py_int df linhas_digitadas
  = Retorna (Some inventario_client) ->
  inventario_client <> [] /\
  NoDup (map fst inventario_client) /\
  (forall m d, In (m, d) inventario_client -> In m (rotulos df)) /\
  (NoDup (rotulos df) -> exists v, rperf_base df inventario_client = Ok v).
Proof.
  unfold client_ambient_io.
  pose proof (@client_ambient_fold_valido str_contains py_int df linhas_digitadas
                (PerguntaBusca, [])) as Hval.
  destruct (fold_left (client_ambient_passo str_contains py_int df) linhas_digitadas
              (PerguntaBusca, [])) as [p inv].
  destruct Hval as (_ & Hnd & Hk).
  { split; [exact I|]. split; [constructor|intros k []]. }
  cbn [fst snd] in *.
  destruct p; try discriminate.
  destruct inv as [|e inv]; [discriminate|].
  intro H. injection H as <-.
  assert (Hrot : forall m d, In (m, d) (e :: inv) -> In m (rotulos df)).
  { intros m d Hin. apply Hk. apply (in_map fst) in Hin. exact Hin. }
  split; [discriminate|]. split; [exact Hnd|]. split; [exact Hrot|].
  intro Hdf. apply (proj1 (soma_rperf_resolucao df (e :: inv) (Fin 0))).
  intros m d Hin. apply filter_rotulo_unico; [exact Hdf|]. now apply (Hrot m d).
Qed.

Lemma client_ambient_io_resolve_witness :
  [("A"%string, mkDados 8 2 1)] <> [] /\
  NoDup (map fst [("A"%string, mkDados 8 2 1)]) /\
  (forall m d, In (m, d) [("A"%string, mkDados 8 2 1)] -> In m (rotulos [linhaA; linhaB])) /\
  (NoDup (rotulos [linhaA; linhaB]) ->
   exists v, rperf_base [linhaA; linhaB] [("A"%string, mkDados 8 2 1)] = Ok v).
Proof.
  apply (@client_ambient_io_resolve (fun busca => Some (contem_texto busca)) int_literal
           [linhaA; linhaB] ["A"; "8"; ""; "2"; ""]%string).
  reflexivity.
Defined.

Lemma client_ambient_rodada (str_contains : string -> option (string -> bool))
    (py_int : string -> option Z) (df : list Linha) (r : rodada) (e : string * Dados)
    (inv : inventario) :
  rodada_entrada str_contains py_int df r = Some e ->
  fold_left (client_ambient_passo str_contains py_int df) (rodada_linhas r)
    (PerguntaBusca, inv)
  = (PerguntaBusca,
     registra inv (fst e) (inv_cores (snd e)) (inv_utilizacao (snd e))
       (inv_servidores (snd e))).
Proof.
  unfold rodada_entrada, rodada_linhas, rotulos. intro H.
  cbn [fold_left]. unfold client_ambient_passo at 4. cbn [fst snd].
  destruct (vazia (rd_busca r)); [discriminate|].
  destruct (str_contains (rd_busca r)) as [contem|]; [|discriminate].
  destruct (filter contem (map Modelo_Unico df)) as [|[|a m] [|m' ms]]; try discriminate.
  cbn [apos_selecao].
  unfold client_ambient_passo at 3. cbn [fst snd].
  destruct (py_int (rd_cores r)) as [c|]; [|discriminate].
  unfold client_ambient_passo at 2. cbn [fst snd].
  destruct (vazia (rd_pico r)).
  - unfold client_ambient_passo. cbn [fst snd].
    destruct (if vazia (rd_servidores r) then Some 1 else py_int (rd_servidores r))
      as [n|]; [|discriminate].
    injection H as <-. reflexivity.
  - destruct (py_int (rd_pico r)) as [k|]; [|discriminate]. cbn [option_map] in H.
    unfold client_ambient_passo. cbn [fst snd].
    destruct (if vazia (rd_servidores r) then Some 1 else py_int (rd_servidores r))
      as [n|]; [|discriminate].
    injection H as <-. reflexivity.
Qed.

Lemma client_ambient_rodadas (str_contains : string -> option (string -> bool))
    (py_int : string -> option Z) (df : list Linha) (rodadas : list rodada)
    (entradas : list (string * Dados)) :
  Forall2 (fun r e => rodada_entrada str_contains py_int df r = Some e) rodadas entradas ->
  forall inv,
    fold_left (client_ambient_passo str_contains py_int df)
      (List.concat (map rodada_linhas rodadas)) (PerguntaBusca, inv)
    = (PerguntaBusca,
       fold_left
         (fun inv e => registra inv (fst e) (inv_cores (snd e)) (inv_utilizacao (snd e))
                         (inv_servidores (snd e)))
         entradas inv).
Proof.
  induction 1 as [|r e rodadas entradas Hr _ IH]; intro inv; [reflexivity|].
  cbn [map List.concat]. rewrite fold_left_app.
  rewrite (client_ambient_rodada _ _ _ _ inv Hr). cbn [fold_left]. apply IH.
Qed.

(** X13.  A session made of rounds whose search has a single match and whose
    answers are all accepted, closed by the empty line, returns the inventory
    that [client_ambient] accumulates from the entries of the rounds, or
    [None] when there was no round. *)
Theorem client_ambient_io_sessao (str_contains : string -> option (string -> bool))
    (py_int : string -> option Z) (df : list Linha) (rodadas : list rodada)
    (entradas : list (string * Dados)) :
  Forall2 (fun r e => rodada_entrada str_contains py_int df r = Some e) rodadas entradas ->
  client_ambient_io str_contains py_int df
    (List.concat (map rodada_linhas rodadas) ++ [EmptyString])
  = Retorna (match client_ambient entradas with
             | [] => None
             | e :: inv => Some (e :: inv)
             end).
Proof.
  intro H. unfold client_ambient_io. rewrite fold_left_app.
  rewrite (@client_ambient_rodadas _ _ _ _ _ H). cbn [fold_left client_ambient_passo fst snd vazia].
  fold (client_ambient entradas).
  destruct (client_ambient entradas); reflexivity.
Qed.

Lemma client_ambient_io_sessao_witness :
  client_ambient_io (fun busca => Some (contem_texto busca)) int_literal [linhaA; linhaB]
    (List.concat (map rodada_linhas [mkRodada "A" "8" "" "2"; mkRodada "B" "4" "50" "";
                                mkRodada "A" "6" "80" "3"])
     ++ [EmptyString])
  = Retorna (match client_ambient [("A"%string, mkDados 8 2 1);
                                   ("B"%string, mkDados 4 1 (50 / 100));
                                   ("A"%string, mkDados 6 3 (80 / 100))] with
             | [] => None
             | e :: inv => Some (e :: inv)
             end).
Proof.
  apply (@client_ambient_io_sessao (fun busca => Some (contem_texto busca)) int_literal
           [linhaA; linhaB]).
  repeat constructor.
Defined.

(** ** The inventory of the agent tool *)

Lemma inv_set_get (inv : inventario) (m m' : string) (d : Dados) :
  inv_get m (inv_set inv m' d) = if String.eqb m m' then Some d else inv_get m inv.
Proof.
  induction inv as [|[m0 d0] resto IH]; cbn [inv_set inv_get].
  - reflexivity.
  - destruct (String.eqb_spec m' m0) as [->|Hne]; cbn [inv_get].
    + destruct (String.eqb_spec m m0); reflexivity.
    + destruct (String.eqb_spec m m0) as [->|Hne'].
      * destruct (String.eqb_spec m0 m'); [congruence|reflexivity].
      * exact IH.
Qed.

Lemma inv_set_chaves (inv : inventario) (m : string) (d : Dados) :
  map fst (inv_set inv m d)
  = if existsb (String.eqb m) (map fst inv) then map fst inv else map fst inv ++ [m].
Proof.
  induction inv as [|[m0 d0] resto IH]; cbn [inv_set map existsb fst app].
  - reflexivity.
  - destruct (String.eqb_spec m m0) as [->|Hne]; cbn [orb map fst].
    + reflexivity.
    + rewrite IH. destruct (existsb (String.eqb m) (map fst resto)); reflexivity.
Qed.

Lemma inventario_dict_snoc (l : list Servidor) (s : Servidor) :
  inventario_dict (l ++ [s])
  = inv_set (inventario_dict l) (srv_modelo s)
      {| inv_cores := srv_cores s;
         inv_servidores := srv_servidores s;
         inv_utilizacao := srv_utilizacao s |}.
Proof.
  unfold inventario_dict. now rewrite fold_left_app.
Qed.

(** X14.  The inventory that the agent tool hands on has one entry per
    model, and the entry of a model is its last line in the request: the
    server counts of earlier lines for the same model are not added, they
    are lost. *)
Theorem inventario_dict_ultimo (inventario_cliente : list Servidor) (m : string) :
  NoDup (map fst (inventario_dict inventario_cliente)) /\
  inv_get m (inventario_dict inventario_cliente)
  = match filter (fun s => String.eqb (srv_modelo s) m) (rev inventario_cliente) with
    | [] => None
    | s :: _ => Some {| inv_cores := srv_cores s;
                        inv_servidores := srv_servidores s;
                        inv_utilizacao := srv_utilizacao s |}
    end.
Proof.
  induction inventario_cliente as [|s l IH] using rev_ind.
  - split; [constructor|reflexivity].
  - destruct IH as [Hnd Hget]. rewrite inventario_dict_snoc. split.
    + rewrite inv_set_chaves.
      destruct (existsb (String.eqb (srv_modelo s)) (map fst (inventario_dict l))) eqn:E;
        [exact Hnd|].
      apply NoDup_app; [exact Hnd|constructor; [intros []|constructor]|].
      intros k Hk [Hm|[]]. subst k.
      assert (existsb (String.eqb (srv_modelo s)) (map fst (inventario_dict l)) = true);
        [|congruence].
      apply existsb_exists. exists (srv_modelo s). split; [exact Hk|apply String.eqb_refl].
    + rewrite inv_set_get, Hget, rev_app_distr. cbn [rev app filter].
      rewrite (String.eqb_sym (srv_modelo s) m).
      destruct (String.eqb m (srv_modelo s)); reflexivity.
Qed.

(** ** The requirement of the request handler *)

Lemma primeira_config_casos (fullmatch : string -> string -> bool) (df : list Linha)
    (machine : ClientMachine) :
  (configs fullmatch df machine = []
   /\ primeira_config fullmatch df (cm_modelo machine) (cm_cores machine)
      = Raise (HTTPException 404)) \/
  (exists l resto, configs fullmatch df machine = l :: resto /\ In l df /\
     fullmatch (cm_modelo machine) (Modelo_Base l) = true /\
     Cores_Maximos l = cm_cores machine /\
     primeira_config fullmatch df (cm_modelo machine) (cm_cores machine)
     = Ok (rPerf_por_Core l)).
Proof.
  unfold primeira_config, configs.
  destruct (filter (fun l => fullmatch (cm_modelo machine) (Modelo_Base l)
                             && (Cores_Maximos l =? cm_cores machine)) df)
    as [|l resto] eqn:E.
  - left. auto.
  - right. exists l, resto.
    assert (Hin : In l (filter (fun l => fullmatch (cm_modelo machine) (Modelo_Base l)
                                        && (Cores_Maximos l =? cm_cores machine)) df))
      by (rewrite E; now left).
    apply filter_In in Hin. destruct Hin as [Hin Hb].
    apply andb_true_iff in Hb. destruct Hb as [Hf Hc]. apply Z.eqb_eq in Hc.
    auto.
Qed.









Lemma rating_total_None (fullmatch : string -> string -> bool) (df : list Linha)
    (maquinas : list ClientMachine) :
  fold_left
    (fun acc machine =>
       match acc, configs fullmatch df machine with
       | Some a, l :: _ =>
           match rPerf_Total l with
           | Fin x => Some (a + inject_Z (cm_quantidade machine) * x)%Q
           | PInf | NInf | NaN => None
           end
       | _, _ => None
       end)
    maquinas None = None.
Proof.
  induction maquinas as [|m resto IH]; [reflexivity|exact IH].
Qed.

Lemma soma_api_rating (fullmatch : string -> string -> bool) (df : list Linha)
    (maquinas : list ClientMachine) (a a' v : Q) :
  tabela_derivada df ->
  (forall machine, In machine maquinas -> cm_cores machine <> 0) ->
  (a' == a)%Q ->
  fold_left
    (fun acc machine =>
       match acc, configs fullmatch df machine with
       | Some a, l :: _ =>
           match rPerf_Total l with
           | Fin x => Some (a + inject_Z (cm_quantidade machine) * x)%Q
           | PInf | NInf | NaN => None
           end
       | _, _ => None
       end)
    maquinas (Some a) = Some v ->
  exists v', soma_api fullmatch df maquinas (Fin a') = Ok (Fin v') /\ (v' == v)%Q.
Proof.
  intros Hder. revert a a'.
  induction maquinas as [|m resto IH]; intros a a' Hc Ha; cbn [fold_left soma_api].
  - intro H. injection H as <-. exists a'. split; [reflexivity|exact Ha].
  - destruct (primeira_config_casos fullmatch df m)
      as [(Hnone & _)|(l & r & Hsome & Hl & _ & Hcores & ->)].
    + rewrite Hnone, rating_total_None. discriminate.
    + rewrite Hsome. cbn [bind].
      destruct (rPerf_Total l) as [x| | |] eqn:Et;
        try (rewrite rating_total_None; discriminate).
      rewrite (Hder l Hl), Et, Hcores. unfold np_div.
      assert (Hc0 : cm_cores m <> 0) by (apply Hc; now left).
      destruct (cm_cores m =? 0) eqn:E0; [apply Z.eqb_eq in E0; contradiction|].
      cbn [fmul fadd]. apply IH.
      * intros x' Hx'. apply Hc. now right.
      * rewrite Ha, inject_Z_mult. field.
        intro H. apply Hc0. now apply inject_Z_zero.
Qed.

(** X17.  On a table that is not empty and whose performance per core is
    the total rating divided by the core ceiling, a request whose machines
    all find a configuration with a finite rating has as base requirement of
    [calcular_sizing] the sum of quantity times total rating of the first
    configuration found: every machine counts with all the cores of its
    configuration active. *)
Theorem rperf_base_api_rating (fullmatch : string -> string -> bool) (df : list Linha)
    (maquinas : list ClientMachine) (v : Q) :
  df <> [] -> tabela_derivada df ->
  (forall machine, In machine maquinas -> cm_cores machine <> 0) ->
  rating_total fullmatch df maquinas = Some v ->
  exists v', rperf_base_api fullmatch df maquinas = Ok (Fin v') /\ (v' == v)%Q.
Proof.
  intros Hdf Hder Hc Hr. unfold rperf_base_api.
  destruct df as [|l0 df0] eqn:Edf; [congruence|]. rewrite <- Edf in *.
  apply (@soma_api_rating fullmatch df maquinas 0 0 v Hder Hc); [reflexivity|exact Hr].
Qed.

Lemma rperf_base_api_rating_witness :
  exists v', rperf_base_api String.eqb tabela_AB
               [mkClientMachine "X" 20 2; mkClientMachine "X" 40 1] = Ok (Fin v')
             /\ (v' == 80)%Q.
Proof.
  apply (@rperf_base_api_rating String.eqb tabela_AB
           [mkClientMachine "X" 20 2; mkClientMachine "X" 40 1] 80).
  - discriminate.
  - intros l [<-|[<-|[]]]; reflexivity.
  - intros machine [<-|[<-|[]]]; discriminate.
  - vm_compute. reflexivity.
Defined.

(** ** From the file to the ranking *)

Lemma normaliza_Forall2 (to_numeric : string -> float64) (rs : list LinhaCSV)
    (df : list Linha) :
  normaliza to_numeric rs = Ok df ->
  Forall2 (fun r e => exists q, cores_lidos to_numeric r = Fin q /\ e = linha_normalizada r q)
    (filter (fun r => negb (nao_numerico (cores_lidos to_numeric r))) rs) df.
Proof.
  revert df. induction rs as [|r rs IH]; intro df; cbn [normaliza filter].
  - intro H. injection H as <-. constructor.
  - unfold normaliza_linha at 1.
    destruct (cores_lidos to_numeric r) as [q| | |] eqn:Er; cbn [bind nao_numerico negb];
      try discriminate.
    + destruct (normaliza to_numeric rs) as [l|e]; cbn [bind]; [|discriminate].
      intro H. injection H as <-. constructor; [|now apply IH].
      exists q. split; [exact Er|reflexivity].
    + destruct (normaliza to_numeric rs) as [l|e]; cbn [bind]; [|discriminate].
      intro H. injection H as <-. now apply IH.
Qed.

(** X18.  When [data_preparation] succeeds, its table has exactly one row
    for each line of the file whose cores cell is a number, in the order of
    the file, and the target subset keeps the order of the table. *)
Theorem data_preparation_ordem (to_numeric : string -> float64) (t : TabelaCSV)
    (df df_alvo : list Linha) :
  data_preparation to_numeric (Some t) = Some (df, df_alvo) ->
  Forall2 (fun r e => exists q, cores_lidos to_numeric r = Fin q /\ e = linha_normalizada r q)
    (filter (fun r => negb (nao_numerico (cores_lidos to_numeric r))) (linhas t)) df /\
  rotulos df
  = map csv_Modelo_Unico
      (filter (fun r => negb (nao_numerico (cores_lidos to_numeric r))) (linhas t)) /\
  df_alvo = filter (fun l => isin_p10_p11 (Processador l)) df.
Proof.
  intro H. apply data_preparation_Some in H. destruct H as (_ & Hnorm & ->).
  pose proof (normaliza_Forall2 _ _ Hnorm) as HF.
  split; [exact HF|]. split; [|reflexivity].
  unfold rotulos. clear Hnorm.
  induction HF as [|r e rs es (q & _ & ->) _ IH]; [reflexivity|].
  cbn [map]. now rewrite IH.
Qed.

Lemma data_preparation_ordem_witness :
  exists df df_alvo,
    data_preparation to_numeric_literal (Some tabela_exemplo) = Some (df, df_alvo) /\
    rotulos df
    = map csv_Modelo_Unico
        (filter (fun r => negb (nao_numerico (cores_lidos to_numeric_literal r)))
           (linhas tabela_exemplo)) /\
    df_alvo = filter (fun l => isin_p10_p11 (Processador l)) df.
Proof.
  eexists. eexists. split; [vm_compute; reflexivity|].
  apply (@data_preparation_ordem to_numeric_literal tabela_exemplo).
  vm_compute. reflexivity.
Defined.



(** ** The normalisation of one cell *)

(** X20.  [str.replace('c', '')] removes the letter wherever it stands, not
    only as a unit suffix: the result is the concatenation of what it makes
    of the parts of the text, it never contains the letter, and a text
    without the letter is returned as it is, so that a text without the
    letter followed by the suffix gives the text back. *)
Theorem replace_c_remove (s1 s2 : string) :
  replace_c (s1 ++ s2) = (replace_c s1 ++ replace_c s2)%string /\
  tem_c (replace_c s1) = false /\
  (tem_c s1 = false -> replace_c s1 = s1 /\ replace_c (s1 ++ "c") = s1).
Proof.
  assert (Happ : forall a b, replace_c (a ++ b) = (replace_c a ++ replace_c b)%string).
  { intros a b. induction a as [|x a IH]; cbn; [reflexivity|].
    destruct (Ascii.eqb x "c"%char); cbn; now rewrite IH. }
  assert (Hid : forall a, tem_c a = false -> replace_c a = a).
  { intro a. induction a as [|x a IH]; cbn; [reflexivity|].
    destruct (Ascii.eqb x "c"%char); cbn; [discriminate|].
    intro H. now rewrite IH. }
  split; [apply Happ|]. split.
  - induction s1 as [|x s1 IH]; cbn; [reflexivity|].
    destruct (Ascii.eqb x "c"%char) eqn:E; cbn; [exact IH|]. now rewrite E.
  - intro H. split; [now apply Hid|].
    rewrite Happ, (Hid s1 H). cbn.
    clear. induction s1 as [|x s1 IH]; cbn; [reflexivity|]. now rewrite IH.
Qed.

Lemma replace_c_remove_witness :
  replace_c "20" = "20"%string /\ replace_c ("20" ++ "c") = "20"%string.
Proof.
  apply (proj2 (proj2 (replace_c_remove "20" ""))). reflexivity.
Defined.

(** ** Order of ties, provenance and monotonicity *)

Lemma chave_igual_leb (z x y : Cenario) :
  chave_igual z x = true -> chave_igual z y = true -> chave_leb x y = true.
Proof.
  unfold chave_igual. rewrite !andb_true_iff, !chave_leb_iff.
  intros [_ Hxz] [Hzy _]. eapply chave_le_trans; eassumption.
Qed.

Lemma insere_filter (z x : Cenario) (l : list Cenario) :
  filter (chave_igual z) (insere x l) = filter (chave_igual z) (x :: l).
Proof.
  induction l as [|y l IH]; [reflexivity|].
  cbn [insere]. destruct (chave_leb x y) eqn:E; [reflexivity|].
  cbn [filter] in *. rewrite IH.
  destruct (chave_igual z x) eqn:Ex, (chave_igual z y) eqn:Ey; try reflexivity.
  rewrite (chave_igual_leb _ _ _ Ex Ey) in E. discriminate.
Qed.

Lemma sorted_filter (z : Cenario) (l : list Cenario) :
  filter (chave_igual z) (sorted l) = filter (chave_igual z) l.
Proof.
  induction l as [|x l IH]; [reflexivity|].
  cbn [sorted]. rewrite insere_filter. cbn [filter]. now rewrite IH.
Qed.

Lemma dict_set_chaves (k : string) (v : Cenario) (d : dict) :
  map fst (dict_set k v d)
  = if existsb (String.eqb k) (map fst d) then map fst d else map fst d ++ [k].
Proof.
  induction d as [|[k' v'] d IH]; cbn [dict_set map existsb fst app].
  - reflexivity.
  - destruct (String.eqb_spec k k') as [->|Hne]; cbn [orb map fst].
    + reflexivity.
    + rewrite IH. destruct (existsb (String.eqb k) (map fst d)); reflexivity.
Qed.

Lemma dict_get_chaves (k : string) (d : dict) :
  existsb (String.eqb k) (map fst d) = match dict_get k d with Some _ => true | None => false end.
Proof.
  induction d as [|[k' v'] d IH]; cbn [dict_get map existsb fst]; [reflexivity|].
  destruct (String.eqb_spec k k'); [reflexivity|exact IH].
Qed.

Lemma seleciona_passo_chaves (d : dict) (c : Cenario) :
  map fst (seleciona_passo d c)
  = if existsb (String.eqb (modelo_base c)) (map fst d)
    then map fst d else map fst d ++ [modelo_base c].
Proof.
  unfold seleciona_passo. rewrite dict_get_chaves.
  destruct (dict_get (modelo_base c) d) as [a|] eqn:E.
  - destruct (substitui c a); [|reflexivity].
    rewrite dict_set_chaves, dict_get_chaves, E. reflexivity.
  - rewrite dict_set_chaves, dict_get_chaves, E. reflexivity.
Qed.

Lemma seleciona_fold_chaves (l : list Cenario) (d : dict) :
  map fst (fold_left seleciona_passo l d)
  = map fst d ++ primeiras_familias (map fst d) l.
Proof.
  revert d. induction l as [|c l IH]; intro d; cbn [fold_left primeiras_familias].
  - now rewrite app_nil_r.
  - rewrite IH, seleciona_passo_chaves.
    destruct (existsb (String.eqb (modelo_base c)) (map fst d)); [reflexivity|].
    now rewrite <- app_assoc.
Qed.

(** X21.  The champions are listed by family in the order in which the
    families first appear among the emitted scenarios, and the sort does
    not reorder ties: the scenarios whose two keys equal those of a given
    scenario stand in the sorted list, of which the ranking is the first
    ten, in the order of the list of champions. *)
Theorem rank_cenarios_ordem_dos_empates (validos : list Cenario) (z : Cenario) :
  map modelo_base (lista_de_campeoes validos) = primeiras_familias [] validos /\
  filter (chave_igual z) (cenarios_finais_ordenados validos)
  = filter (chave_igual z) (lista_de_campeoes validos) /\
  top_cenarios validos = firstn 10 (cenarios_finais_ordenados validos).
Proof.
  split; [|split].
  - unfold lista_de_campeoes.
    rewrite (campeoes_familias (campeoes_seleciona validos)).
    unfold seleciona. now rewrite seleciona_fold_chaves.
  - apply sorted_filter.
  - reflexivity.
Qed.

Lemma gera_cenarios_In (df_alvo : list Linha) (r : Q) (validos : list Cenario)
    (c : Cenario) :
  gera_cenarios df_alvo r = Ok validos -> In c validos ->
  exists l, In l df_alvo /\ avalia_alvo r l = Ok (Some c).
Proof.
  revert validos. induction df_alvo as [|l df IH]; intro validos; cbn [gera_cenarios].
  - intro H. injection H as <-. intros [].
  - destruct (avalia_alvo r l) as [o|e] eqn:El; cbn [bind]; [|discriminate].
    destruct (gera_cenarios df r) as [vs|e]; cbn [bind]; [|discriminate].
    intro H. injection H as <-.
    assert (Hrest : In c vs -> exists l0, In l0 (l :: df) /\ avalia_alvo r l0 = Ok (Some c)).
    { intro Hin. destruct (IH vs eq_refl Hin) as (l0 & Hl0 & Hev).
      exists l0. split; [now right|exact Hev]. }
    destruct o as [c0|]; [|exact Hrest].
    intros [<-|Hin]; [|now apply Hrest].
    exists l. split; [now left|exact El].
Qed.

Lemma avalia_alvo_rotulos (r : Q) (l : Linha) (c : Cenario) :
  avalia_alvo r l = Ok (Some c) ->
  modelo_unico c = Modelo_Unico l /\ modelo_base c = Modelo_Base l.
Proof.
  unfold avalia_alvo.
  destruct (rPerf_por_Core l) as [p| | |];
    repeat match goal with
           | |- context [if ?b then _ else _] => destruct b
           end; try discriminate.
  intro H. injection H as H. apply avalia_finito_Some in H.
  destruct H as (_ & _ & _ & ->). cbn. auto.
Qed.

(** X22.  The ranking invents nothing: every scenario that [rank_cenarios]
    returns is the scenario that the candidate loop computed for a row of
    the target subset, and it carries the label and the family of that
    row. *)
Theorem rank_cenarios_origem (df_alvo : list Linha) (r : Q) (top : list Cenario)
    (s : Cenario) :
  rank_cenarios df_alvo r = Ok top -> In s top ->
  exists l, In l df_alvo /\ avalia_alvo r l = Ok (Some s) /\
            modelo_unico s = Modelo_Unico l /\ modelo_base s = Modelo_Base l.
Proof.
  intros Hrank Hs. unfold rank_cenarios in Hrank.
  destruct (gera_cenarios df_alvo r) as [validos|e] eqn:Hg; [|discriminate].
  cbn [bind] in Hrank.
  assert (Htop : top = top_cenarios validos) by (injection Hrank as <-; reflexivity).
  subst top. apply top_cenarios_In in Hs.
  destruct (campeoes_origem (campeoes_seleciona validos) _ _ Hs) as [_ Hin].
  destruct (@gera_cenarios_In _ _ _ _ Hg Hin) as (l & Hl & Hev).
  exists l. split; [exact Hl|]. split; [exact Hev|]. exact (@avalia_alvo_rotulos r l s Hev).
Qed.

Lemma rank_cenarios_origem_witness :
  exists l, In l [linhaA; linhaB] /\ avalia_alvo 15 l = Ok (Some cenarioA) /\
            modelo_unico cenarioA = Modelo_Unico l /\ modelo_base cenarioA = Modelo_Base l.
Proof.
  apply (@rank_cenarios_origem [linhaA; linhaB] 15 [cenarioA] cenarioA).
  - reflexivity.
  - left. reflexivity.
Defined.

(** X23.  For a configuration with a positive core ceiling and a positive
    performance per core, a larger requirement never needs fewer servers. *)
Theorem num_servidores_real_monotono (r r' p : Q) (m : Z) :
  (0 < p)%Q -> 0 < m -> (r <= r')%Q ->
  num_servidores_real r p m <= num_servidores_real r' p m.
Proof.
  intros Hp Hm Hr.
  destruct (num_servidores_real_teto r Hp Hm) as [Hlow _].
  destruct (num_servidores_real_teto r' Hp Hm) as [_ Hup].
  assert (HpM : (0 < p * inject_Z m)%Q).
  { apply Qmult_lt_0_compat; [assumption|].
    change 0%Q with (inject_Z 0). now apply inject_Z_lt. }
  set (n := num_servidores_real r p m) in *.
  set (n' := num_servidores_real r' p m) in *.
  destruct (Z_lt_le_dec n' n) as [Hlt|]; [|assumption]. exfalso.
  assert (inject_Z n' <= inject_Z (n - 1))%Q by (apply inject_Z_le; lia).
  assert ((inject_Z (n - 1) - inject_Z n') * (p * inject_Z m) >= 0)%Q
    by (apply Qmult_le_0_compat; lra).
  lra.
Qed.

Lemma num_servidores_real_monotono_witness :
  num_servidores_real 15 1 20 <= num_servidores_real 45 1 20.
Proof.
  apply (@num_servidores_real_monotono 15 45 1 20).
  - reflexivity.
  - lia.
  - unfold Qle. simpl. lia.
Defined.
